(** * The local fallback engine of the Gomoku agent (agent_v2.py)

    A shallow embedding of the three methods of [AdvancedLLMAgent] that
    decide a move without the remote model:

    - [_creates_five_in_row]  (agent_v2.py, lines 240-272),
    - [_evaluate_move]        (agent_v2.py, lines 274-293),
    - [_get_strategic_move]   (agent_v2.py, lines 203-238),

    and of the three that describe the position to the remote model:

    - [_count_sequences]                       (lines 168-185),
    - [_analyze_position]                      (lines 150-166),
    - [_create_detailed_board_representation]  (lines 187-201).

    The board is a Python list of lists whose cells hold [None] or a
    [Player]; [_creates_five_in_row] writes into it and undoes the write,
    so the board is the store of a small state-and-exception monad.
    Integers are [Z]; list subscripts follow Python (negative subscripts
    count from the end, anything else out of range raises [IndexError]).
    The scorer's floats are half-integers of small magnitude, on which
    float arithmetic is exact; they are modelled as rationals [Q].
    [print] calls are left out. *)

From Stdlib Require Import ZArith QArith Qabs Qminmax Lia Lqa.
From stdpp Require Import base option list strings pretty.

Local Open Scope Z_scope.

(** ** Values *)

(** [gomoku.core.models.Player] as the agent uses it: two members. *)
Inductive Player := X | O.

#[global] Instance Player_eq_dec : EqDecision Player.
Proof. solve_decision. Defined.

(** A cell holds [None] (empty) or a player. *)
Definition cell : Type := option Player.

Abbreviation Board := (list (list cell)).
Abbreviation Move := (Z * Z)%type.

(** ** Exceptions and results *)

Inductive exn := IndexError.

(** What a call does: return a value, raise, or (for the model of a
    [while] loop) exhaust the iteration budget it was given. *)
Inductive result (A : Type) :=
| Ret (a : A)
| Raise (e : exn)
| OutOfFuel.
Arguments Ret {A} a.
Arguments Raise {A} e.
Arguments OutOfFuel {A}.

#[global] Instance exn_eq_dec : EqDecision exn.
Proof. solve_decision. Defined.

#[global] Instance result_eq_dec {A} `{EqDecision A} : EqDecision (result A).
Proof. solve_decision. Defined.

#[global] Instance result_ret : MRet result := fun _ a => Ret a.
#[global] Instance result_bind : MBind result := fun _ _ k m =>
  match m with
  | Ret a => k a
  | Raise e => Raise e
  | OutOfFuel => OutOfFuel
  end.

(** ** Python list subscripts *)

Definition len {A} (l : list A) : Z := Z.of_nat (length l).

(** The position a subscript [i] denotes in a list of [n] items. *)
Definition py_index (n : nat) (i : Z) : option nat :=
  if 0 <=? i then
    if i <? Z.of_nat n then Some (Z.to_nat i) else None
  else
    if - Z.of_nat n <=? i then Some (Z.to_nat (Z.of_nat n + i)) else None.

(** [l[i]] *)
Definition getitem {A} (l : list A) (i : Z) : result A :=
  match py_index (length l) i with
  | Some k => match l !! k with Some x => Ret x | None => Raise IndexError end
  | None => Raise IndexError
  end.

(** [l[i] = x], as the list after the assignment *)
Definition setitem {A} (l : list A) (i : Z) (x : A) : result (list A) :=
  match py_index (length l) i with
  | Some k => Ret (<[k:=x]> l)
  | None => Raise IndexError
  end.

(** [board[row][col]] *)
Definition board_get (board : Board) (row col : Z) : result cell :=
  line ← getitem board row; getitem line col.

(** [board[row][col] = v]: the inner list [board[row]] is updated in place. *)
Definition board_set (board : Board) (row col : Z) (v : cell) : result Board :=
  line ← getitem board row;
  line' ← setitem line col v;
  setitem board row line'.

(** ** The store: the board object shared with the caller *)

Definition M (A : Type) : Type := Board → result A * Board.

#[global] Instance M_ret : MRet M := fun _ a board => (Ret a, board).
#[global] Instance M_bind : MBind M := fun _ _ k m board =>
  match m board with
  | (Ret a, board') => k a board'
  | (Raise e, board') => (Raise e, board')
  | (OutOfFuel, board') => (OutOfFuel, board')
  end.

(** A computation that only reads the board. *)
Definition reading {A} (f : Board → result A) : M A :=
  fun board => (f board, board).

Definition load (row col : Z) : M cell :=
  reading (fun board => board_get board row col).

Definition store (row col : Z) (v : cell) : M unit := fun board =>
  match board_set board row col v with
  | Ret board' => (Ret tt, board')
  | Raise e => (Raise e, board)
  | OutOfFuel => (OutOfFuel, board)
  end.

(** ** The win detector *)

(** The guard of both [while] loops (lines 255-256 and 262-263):
    [0 <= r < len(board) and 0 <= c < len(board[0]) and board[r][c] == player],
    with [and] evaluated left to right. *)
Definition ray_guard (board : Board) (player : Player) (r c : Z) : result bool :=
  if (0 <=? r) && (r <? len board) then
    row0 ← getitem board 0;
    if (0 <=? c) && (c <? len row0) then
      x ← board_get board r c;
      mret (bool_decide (x = Some player))
    else mret false
  else mret false.

(** One [while] loop: from [(r, c)], step by [(dr, dc)] while the guard
    holds, adding 1 to [count] each time. The second loop of the source
    subtracts the direction; it is this loop with the step negated. *)
Fixpoint count_ray (fuel : nat) (board : Board) (player : Player)
    (dr dc r c count : Z) : result Z :=
  match fuel with
  | 0%nat => OutOfFuel
  | S fuel' =>
      go ← ray_guard board player r c;
      if go : bool
      then count_ray fuel' board player dr dc (r + dr) (c + dc) (count + 1)
      else mret count
  end.

(** Iterations granted to a [while] loop over a board: one more than the
    number of rows plus the length of the first row. [count_ray_total]
    shows that no loop of the detector uses them up. *)
Definition ray_fuel (board : Board) : nat :=
  S (length board + length (default [] (head board))).

Definition directions : list (Z * Z) := [(0, 1); (1, 0); (1, 1); (1, -1)].

(** The [for dr, dc in directions] loop (lines 250-269) and the code
    after it (lines 271-272). *)
Fixpoint for_directions (dirs : list (Z * Z)) (row col : Z) (player : Player)
    : M bool :=
  match dirs with
  | [] =>
      store row col None;;
      mret false
  | (dr, dc) :: rest =>
      count ← reading (fun board =>
        count_ray (ray_fuel board) board player dr dc (row + dr) (col + dc) 1);
      count ← reading (fun board =>
        count_ray (ray_fuel board) board player (- dr) (- dc) (row - dr) (col - dc) count);
      if 5 <=? count then
        store row col None;;
        mret true
      else for_directions rest row col player
  end.

Definition _creates_five_in_row (move : Move) (player : Player) : M bool :=
  let '(row, col) := move in
  x ← load row col;
  match x with
  | Some _ => mret false
  | None =>
      store row col (Some player);;
      for_directions directions row col player
  end.
Arguments _creates_five_in_row : simpl never.

(** ** The position scorer *)

(** [max(0, x)] *)
Definition py_max0 (x : Q) : Q := if Qlt_le_dec 0 x then x else 0%Q.

(** [abs(x - 3.5)] for an integer [x] *)
Definition center_gap (x : Z) : Q := Qabs (inject_Z x - 3.5).

(** The condition of line 289-290:
    [0 <= r < len(board) and 0 <= c < len(board[0]) and board[r][c] is not None]. *)
Definition neighbour_guard (board : Board) (r c : Z) : result bool :=
  if (0 <=? r) && (r <? len board) then
    row0 ← getitem board 0;
    if (0 <=? c) && (c <? len row0) then
      x ← board_get board r c;
      mret (if x is Some _ then true else false)
    else mret false
  else mret false.

(** The inner loop [for dc in [-1, 0, 1]] at a given [dr]. *)
Fixpoint for_dc (dcs : list Z) (board : Board) (row col dr : Z) (score : Q)
    : result Q :=
  match dcs with
  | [] => mret score
  | dc :: rest =>
      if (dr =? 0) && (dc =? 0) then for_dc rest board row col dr score
      else
        hit ← neighbour_guard board (row + dr) (col + dc);
        for_dc rest board row col dr (if hit : bool then score + 2 else score)%Q
  end.

(** The outer loop [for dr in [-1, 0, 1]]. *)
Fixpoint for_dr (drs : list Z) (board : Board) (row col : Z) (score : Q)
    : result Q :=
  match drs with
  | [] => mret score
  | dr :: rest =>
      score' ← for_dc [-1; 0; 1] board row col dr score;
      for_dr rest board row col score'
  end.

Definition _evaluate_move (board : Board) (move : Move) (player : Player)
    : result Q :=
  let '(row, col) := move in
  let score := 0%Q in
  let center_distance := (center_gap row + center_gap col)%Q in
  let score := (score + py_max0 (7 - center_distance))%Q in
  for_dr [-1; 0; 1] board row col score.

(** ** The fallback move selector *)

(** What the selector reads from [game_state]: the player to move and the
    list [get_legal_moves()] returns. [game_state.board] is the store. *)
Record GameState := {
  current_player : Player;
  get_legal_moves : list Move
}.

(** The loops of lines 210-213 and 217-220: [Some move] when the loop
    returns [move] from the function, [None] when it runs to its end. *)
Fixpoint first_five (moves : list Move) (player : Player) : M (option Move) :=
  match moves with
  | [] => mret None
  | move :: rest =>
      five ← _creates_five_in_row move player;
      if five : bool then mret (Some move) else first_five rest player
  end.

Definition center_moves : list Move := [(3, 3); (3, 4); (4, 3); (4, 4)].

(** The loop of lines 231-233, appending to [scored_moves]. *)
Fixpoint score_moves (moves : list Move) (board : Board) (player : Player)
    (scored_moves : list (Q * Move)) : result (list (Q * Move)) :=
  match moves with
  | [] => mret scored_moves
  | move :: rest =>
      score ← _evaluate_move board move player;
      score_moves rest board player (scored_moves ++ [(score, move)])
  end.

(** [a < b] on pairs of integers: the first differing component decides. *)
Definition move_lt (a b : Move) : bool :=
  if a.1 =? b.1 then a.2 <? b.2 else a.1 <? b.1.

(** [a < b] on [(score, move)] tuples. *)
Definition scored_lt (a b : Q * Move) : bool :=
  match (a.1 ?= b.1)%Q with
  | Eq => move_lt a.2 b.2
  | Lt => true
  | Gt => false
  end.

(** [scored_moves.sort(reverse=True)]: a stable sort into descending
    order, here by insertion. An item goes in front of the items it is
    not smaller than, so equal items keep their order. *)
Fixpoint insert_desc (x : Q * Move) (l : list (Q * Move)) : list (Q * Move) :=
  match l with
  | [] => [x]
  | y :: l' => if scored_lt x y then y :: insert_desc x l' else x :: l
  end.

Definition sort_reverse (l : list (Q * Move)) : list (Q * Move) :=
  foldr insert_desc [] l.

Definition _get_strategic_move (game_state : GameState) : M Move :=
  let legal_moves := get_legal_moves game_state in
  let my_player := current_player game_state in
  (* 1. Check for immediate wins *)
  won ← first_five legal_moves my_player;
  match won with
  | Some move => mret move
  | None =>
  (* 2. Block opponent wins *)
  let opp_player := if decide (my_player = X) then O else X in
  blocked ← first_five legal_moves opp_player;
  match blocked with
  | Some move => mret move
  | None =>
  (* 3. Play center if available *)
  match find (fun move => bool_decide (move ∈ legal_moves)) center_moves with
  | Some move => mret move
  | None =>
  (* 4. Look for good tactical moves *)
  scored_moves ← reading (fun board => score_moves legal_moves board my_player []);
  best ← reading (fun _ => getitem (sort_reverse scored_moves) 0);
  mret best.2
  end end end.
Arguments _get_strategic_move : simpl never.

(** ** Boards as the data model describes them *)

Definition rows (board : Board) : Z := len board.
Definition cols (board : Board) : Z := len (default [] (head board)).

(** Every row is as long as the first one. *)
Definition rectangular (board : Board) : Prop :=
  Forall (fun line => length line = length (default [] (head board))) board.

Definition in_bounds (board : Board) (m : Move) : Prop :=
  0 <= m.1 < rows board ∧ 0 <= m.2 < cols board.

(** The content of the cell at [(r, c)], when there is such a cell. *)
Definition cell_at (board : Board) (r c : Z) : option cell :=
  if (0 <=? r) && (0 <=? c)
  then line ← board !! Z.to_nat r; line !! Z.to_nat c
  else None.

Definition empty_at (board : Board) (m : Move) : Prop :=
  cell_at board m.1 m.2 = Some None.

#[global] Instance empty_at_dec board m : Decision (empty_at board m).
Proof. unfold empty_at. apply _. Defined.

#[global] Instance rectangular_dec board : Decision (rectangular board).
Proof. unfold rectangular. apply _. Defined.

#[global] Instance in_bounds_dec board m : Decision (in_bounds board m).
Proof. unfold in_bounds. apply _. Defined.

(** The cell at [(r, c)] exists and holds a stone of [player]. *)
Definition owned (board : Board) (player : Player) (r c : Z) : Prop :=
  cell_at board r c = Some (Some player).

#[global] Instance owned_dec board player r c :
  Decision (owned board player r c).
Proof. unfold owned. apply _. Defined.

(** The board with a stone of [player] put on the cell [m]. *)
Definition place (board : Board) (m : Move) (player : Player) : Board :=
  if (0 <=? m.1) && (0 <=? m.2) then
    match board !! Z.to_nat m.1 with
    | Some line => <[Z.to_nat m.1 := <[Z.to_nat m.2 := Some player]> line]> board
    | None => board
    end
  else board.

(** The cells [m + i * d] for [lo <= i <= hi] are all stones of [player],
    and the cell [m] itself is one of them. *)
Definition run_through (board : Board) (player : Player) (m : Move)
    (d : Z * Z) (lo hi : Z) : Prop :=
  lo <= 0 <= hi ∧
  ∀ i, lo <= i <= hi → owned board player (m.1 + i * d.1) (m.2 + i * d.2).

(** Putting a stone of [player] on [m] yields, along one of the four axes,
    a contiguous run of at least five stones of [player] through [m]. *)
Definition makes_five (board : Board) (m : Move) (player : Player) : Prop :=
  ∃ d lo hi, d ∈ directions ∧
    run_through (place board m player) player m d lo hi ∧ 5 <= hi - lo + 1.

(** The number of contiguous stones of [player] met from [(r, c)] on,
    stepping by [(dr, dc)], is [n]. *)
Definition ray_length (board : Board) (player : Player) (dr dc r c : Z)
    (n : nat) : Prop :=
  (∀ i, 0 <= i < Z.of_nat n → owned board player (r + i * dr) (c + i * dc)) ∧
  ¬ owned board player (r + Z.of_nat n * dr) (c + Z.of_nat n * dc).

(** A step to one of the eight neighbouring cells. *)
Definition unit_step (dr dc : Z) : Prop :=
  (dr = -1 ∨ dr = 0 ∨ dr = 1) ∧ (dc = -1 ∨ dc = 0 ∨ dc = 1) ∧
  (dr ≠ 0 ∨ dc ≠ 0).

(** How many cells of the board lie ahead of [(r, c)], itself included,
    when stepping by [(dr, dc)]: the variant of the [while] loops. *)
Definition cells_ahead (board : Board) (dr dc r c : Z) : Z :=
  if dr =? 1 then rows board - r
  else if dr =? -1 then r + 1
  else if dc =? 1 then cols board - c
  else c + 1.

(** The detector answers [True] for [m] and [player] on [board]. *)
Definition wins (board : Board) (m : Move) (player : Player) : Prop :=
  (_creates_five_in_row m player board).1 = Ret true.

(** The detector answers [False] for [m] and [player] on [board]. *)
Definition no_win (board : Board) (m : Move) (player : Player) : Prop :=
  (_creates_five_in_row m player board).1 = Ret false.

#[global] Instance wins_dec board m player : Decision (wins board m player).
Proof. unfold wins. apply _. Defined.

(** [Player.O if my_player == Player.X else Player.X] *)
Definition opponent (player : Player) : Player :=
  if decide (player = X) then O else X.

(** The order of [(score, move)] tuples: by score, then by row, then by
    column. *)
Definition scored_below (a b : Q * Move) : Prop :=
  (a.1 < b.1)%Q ∨
  ((a.1 == b.1)%Q ∧ (a.2.1 < b.2.1 ∨ (a.2.1 = b.2.1 ∧ a.2.2 < b.2.2))).

(** Along the axis [d] through [(row, col)], the stones of [player] met
    forwards and backwards, plus one for the cell itself, are at least 5. *)
Definition axis_five (board : Board) (player : Player) (row col : Z)
    (d : Z * Z) : Prop :=
  ∃ nf nb,
    ray_length board player d.1 d.2 (row + d.1) (col + d.2) nf ∧
    ray_length board player (- d.1) (- d.2) (row - d.1) (col - d.2) nb ∧
    5 <= 1 + Z.of_nat nf + Z.of_nat nb.

(** ** The score as the description gives it *)

(** The cell at [(r, c)] exists and holds a stone, of either player. *)
Definition occupied (board : Board) (r c : Z) : bool :=
  match cell_at board r c with
  | Some (Some _) => true
  | _ => false
  end.

(** The offsets of the eight neighbours of a cell. *)
Definition moore : list (Z * Z) :=
  [(-1, -1); (-1, 0); (-1, 1); (0, -1); (0, 1); (1, -1); (1, 0); (1, 1)].

(** [max(0, 7 - (|row - 3.5| + |col - 3.5|))] *)
Definition centrality (row col : Z) : Q :=
  Qmax 0 (7 - (Qabs (inject_Z row - 3.5) + Qabs (inject_Z col - 3.5))).

(** 2 for each neighbour that is on the board and not empty. *)
Definition density (board : Board) (row col : Z) : Q :=
  inject_Z (2 * Z.of_nat (length
    (filter (fun d => occupied board (row + d.1) (col + d.2)) moore))).

(** ** Positions used in the examples *)

Definition empty_board : Board := replicate 8 (replicate 8 None).

Definition put_stones (stones : list (Move * Player)) (board : Board) : Board :=
  foldr (fun s b => place b s.1 s.2) board stones.

(** Four stones of [X] in row 3, columns 3 to 6, both ends open. *)
Definition four_in_row : Board :=
  put_stones [((3, 3), X); ((3, 4), X); ((3, 5), X); ((3, 6), X)] empty_board.

(** The four central cells taken, two by each player. *)
Definition centre_taken : Board :=
  put_stones [((3, 3), X); ((3, 4), O); ((4, 3), O); ((4, 4), X)] empty_board.

(** The cells of an 8 by 8 board, row by row. *)
Definition all_cells : list Move :=
  r ← seqZ 0 8; c ← seqZ 0 8; [(r, c)].

(** The empty cells of a board in row-major order. *)
Definition empty_cells (board : Board) : list Move :=
  filter (fun m => empty_at board m) all_cells.

(** A board whose second row is shorter than its first. *)
Definition ragged_board : Board := [[None; None]; [None]].

(** Game states over the example positions: the legal moves are the
    empty cells in row-major order. *)
Definition x_to_move_four : GameState :=
  {| current_player := X; get_legal_moves := empty_cells four_in_row |}.

Definition o_to_move_four : GameState :=
  {| current_player := O; get_legal_moves := empty_cells four_in_row |}.

Definition opening : GameState :=
  {| current_player := X; get_legal_moves := empty_cells empty_board |}.

Definition centre_gone : GameState :=
  {| current_player := X; get_legal_moves := empty_cells centre_taken |}.

(** The scorer returns a number equal to [q]. *)
Definition scores (board : Board) (m : Move) (player : Player) (q : Q) : Prop :=
  match _evaluate_move board m player with
  | Ret s => (s == q)%Q
  | _ => False
  end.

(** The scorer gives no move of the list more than [q]. *)
Definition none_above (board : Board) (player : Player) (q : Q)
    (moves : list Move) : bool :=
  forallb (fun m => match _evaluate_move board m player with
                    | Ret s => Qle_bool s q
                    | _ => false
                    end) moves.

(** ** Computations that hand the board back *)

(** On a rectangular board the computation ends and leaves the board as it
    found it, whether it returns or raises. *)
Definition keeps_board {A} (m : M A) : Prop :=
  ∀ board, rectangular board →
    (m board).1 ≠ OutOfFuel ∧ (m board).2 = board.

(** The cell [x] is one of the eight neighbours of the cell [m]. *)
Definition next_to (m x : Move) : Prop :=
  (x.1 - m.1, x.2 - m.2) ∈ moore.

#[global] Instance next_to_dec m x : Decision (next_to m x).
Proof. unfold next_to. apply _. Defined.

(** ** The sequence counter (agent_v2.py, lines 168-185) *)

(** The loop [for dr, dc in directions] of lines 176-184: scan forward
    from [(row, col)] and add 1 to [count] when the scan meets exactly
    [length] stones. *)
Fixpoint count_at (dirs : list (Z * Z)) (board : Board) (player : Player)
    (length row col count : Z) : result Z :=
  match dirs with
  | [] => mret count
  | (dr, dc) :: rest =>
      sequence ← count_ray (ray_fuel board) board player dr dc row col 0;
      count_at rest board player length row col
        (if sequence =? length then count + 1 else count)
  end.

(** The loop [for col in range(len(board[0]))] at a given [row]. *)
Fixpoint count_in_row (cols : list Z) (board : Board) (player : Player)
    (length row count : Z) : result Z :=
  match cols with
  | [] => mret count
  | col :: rest =>
      count' ← count_at directions board player length row col count;
      count_in_row rest board player length row count'
  end.

(** The loop [for row in range(len(board))]. *)
Fixpoint count_in_rows (rows : list Z) (board : Board) (player : Player)
    (length count : Z) : result Z :=
  match rows with
  | [] => mret count
  | row :: rest =>
      row0 ← getitem board 0;
      count' ← count_in_row (seqZ 0 (len row0)) board player length row count;
      count_in_rows rest board player length count'
  end.

Definition _count_sequences (board : Board) (player : Player) (length : Z)
    : result Z :=
  count_in_rows (seqZ 0 (len board)) board player length 0.

(** From the cell [(r, c)] on, stepping by [d], exactly [n] cells hold
    stones of [player] before the first cell that does not (or the edge). *)
Definition run_of (board : Board) (player : Player) (n : Z)
    (t : Z * Z * (Z * Z)) : Prop :=
  0 <= n ∧
  Forall (fun i => owned board player (t.1.1 + i * t.2.1) (t.1.2 + i * t.2.2))
    (seqZ 0 n) ∧
  ¬ owned board player (t.1.1 + n * t.2.1) (t.1.2 + n * t.2.2).

#[global] Instance run_of_dec board player n t :
  Decision (run_of board player n t).
Proof. unfold run_of. apply _. Defined.

(** The starts of the scans: every cell in the given rows and columns with
    every direction, in the order of the loops. *)
Definition scan_starts (rs cs : list Z) : list (Z * Z * (Z * Z)) :=
  r ← rs; c ← cs; d ← directions; [(r, c, d)].

(** ** The board as text (agent_v2.py, lines 187-201) *)

(** The line feed character. *)
Definition nl : string := String (Ascii.ascii_of_nat 10) "".

(** What one cell adds to the text (lines 194-199). *)
Definition cell_text (x : cell) : string :=
  match x with
  | Some X => "X "
  | Some O => "O "
  | None => ". "
  end.

(** The loop [for j in range(len(board[i]))]; [out] is the variable
    [result] of the source. *)
Fixpoint show_cells (js : list Z) (board : Board) (i : Z) (out : string)
    : result string :=
  match js with
  | [] => mret out
  | j :: rest =>
      x ← board_get board i j;
      show_cells rest board i (out +:+ cell_text x)
  end.

(** The loop [for i in range(len(board))]. *)
Fixpoint show_rows (rows : list Z) (board : Board) (out : string)
    : result string :=
  match rows with
  | [] => mret out
  | i :: rest =>
      let out := out +:+ (pretty i +:+ " ") in
      line ← getitem board i;
      out ← show_cells (seqZ 0 (len line)) board i out;
      show_rows rest board (out +:+ nl)
  end.

Definition _create_detailed_board_representation (board : Board)
    : result string :=
  show_rows (seqZ 0 (len board)) board ("  0 1 2 3 4 5 6 7" +:+ nl).

(** The text of a row of cells followed by [rest]. *)
Definition cells_then (line : list cell) (rest : string) : string :=
  foldr (fun x s => cell_text x +:+ s) rest line.

(** The text of the rows of a board, labelled from [i] on. *)
Fixpoint rows_text (i : Z) (lines : Board) : string :=
  match lines with
  | [] => ""
  | line :: rest =>
      pretty i +:+ " " +:+ cells_then line (nl +:+ rows_text (i + 1) rest)
  end.

(** ** The position report (agent_v2.py, lines 150-166) *)

(** The text [_analyze_position] returns for the four counts. *)
Definition report (my_threes my_twos opp_threes opp_twos : Z) : string :=
  nl +:+ "My position: " +:+ pretty my_threes +:+ " threes, "
     +:+ pretty my_twos +:+ " twos" +:+ nl
     +:+ "Opponent position: " +:+ pretty opp_threes +:+ " threes, "
     +:+ pretty opp_twos +:+ " twos" +:+ nl
     +:+ "Tactical balance: "
     +:+ (if my_threes >? opp_threes then "Attacking"
          else if opp_threes >? my_threes then "Defending"
          else "Equal")
     +:+ nl.

Definition _analyze_position (game_state : GameState) (board : Board)
    : result string :=
  let my_player := current_player game_state in
  let opp_player := if decide (my_player = X) then O else X in
  my_twos ← _count_sequences board my_player 2;
  my_threes ← _count_sequences board my_player 3;
  opp_twos ← _count_sequences board opp_player 2;
  opp_threes ← _count_sequences board opp_player 3;
  mret (report my_threes my_twos opp_threes opp_twos).

(** * Proofs *)

(** ** Subscripts *)

Lemma py_index_in_range n i :
  0 <= i < Z.of_nat n → py_index n i = Some (Z.to_nat i).
Proof.
  intros Hi. unfold py_index.
  destruct (Z.leb_spec 0 i); [|lia].
  destruct (Z.ltb_spec i (Z.of_nat n)); [done|lia].
Qed.

Lemma py_index_lt n i k : py_index n i = Some k → (k < n)%nat.
Proof.
  unfold py_index. intros H.
  destruct (Z.leb_spec 0 i).
  - destruct (Z.ltb_spec i (Z.of_nat n)); simplify_eq. lia.
  - destruct (Z.leb_spec (- Z.of_nat n) i); simplify_eq. lia.
Qed.

Lemma getitem_in_range {A} (l : list A) i :
  0 <= i < len l → ∃ x, l !! Z.to_nat i = Some x ∧ getitem l i = Ret x.
Proof.
  intros Hi. unfold getitem, len in *. rewrite py_index_in_range by done.
  destruct (l !! Z.to_nat i) as [x|] eqn:Hx; [eauto|].
  apply lookup_ge_None in Hx. lia.
Qed.

Lemma getitem_Ret {A} (l : list A) i x :
  getitem l i = Ret x → ∃ k, py_index (length l) i = Some k ∧ l !! k = Some x.
Proof.
  unfold getitem. destruct (py_index (length l) i) as [k|]; [|done].
  destruct (l !! k) eqn:Hk; [|done]. intros [= ->]. eauto.
Qed.

Lemma getitem_py_index {A} (l : list A) i k :
  py_index (length l) i = Some k → ∃ x, l !! k = Some x ∧ getitem l i = Ret x.
Proof.
  intros Hk. unfold getitem. rewrite Hk.
  destruct (l !! k) as [x|] eqn:Hx; [eauto|].
  apply lookup_ge_None in Hx. apply py_index_lt in Hk. lia.
Qed.

(** ** Cells of a rectangular board *)

Lemma rectangular_lookup board k line :
  rectangular board → board !! k = Some line →
  len line = cols board.
Proof.
  intros Hrect Hk. unfold cols, len.
  by rewrite (Forall_lookup_1 _ _ _ _ Hrect Hk).
Qed.

Lemma cell_at_inv board r c x :
  cell_at board r c = Some x →
  0 <= r ∧ 0 <= c ∧
  ∃ line, board !! Z.to_nat r = Some line ∧ line !! Z.to_nat c = Some x.
Proof.
  unfold cell_at. intros H.
  destruct (Z.leb_spec 0 r), (Z.leb_spec 0 c); simpl in H; try done.
  destruct (board !! Z.to_nat r) as [line|] eqn:Hline; simpl in H; [|done].
  eauto.
Qed.

Lemma cell_at_in_bounds board r c x :
  rectangular board → cell_at board r c = Some x → in_bounds board (r, c).
Proof.
  intros Hrect (Hr & Hc & line & Hline & Hx)%cell_at_inv.
  pose proof (rectangular_lookup _ _ _ Hrect Hline) as Hlen.
  apply lookup_lt_Some in Hline, Hx. unfold in_bounds, rows, len in *.
  simpl. lia.
Qed.

Lemma in_bounds_cell_at board m :
  rectangular board → in_bounds board m → ∃ x, cell_at board m.1 m.2 = Some x.
Proof.
  intros Hrect [Hr Hc]. unfold cell_at, rows, len in *.
  destruct (Z.leb_spec 0 m.1), (Z.leb_spec 0 m.2); try lia. simpl.
  destruct (board !! Z.to_nat m.1) as [line|] eqn:Hline.
  - simpl. pose proof (rectangular_lookup _ _ _ Hrect Hline) as Hlen.
    destruct (line !! Z.to_nat m.2) as [x|] eqn:Hx; [eauto|].
    apply lookup_ge_None in Hx. unfold len in *. lia.
  - apply lookup_ge_None in Hline. lia.
Qed.

Lemma board_get_cell_at board r c :
  rectangular board → in_bounds board (r, c) →
  ∃ x, cell_at board r c = Some x ∧ board_get board r c = Ret x.
Proof.
  intros Hrect Hb. destruct (in_bounds_cell_at _ _ Hrect Hb) as [x Hx].
  exists x. split; [done|]. simpl in Hx.
  apply cell_at_inv in Hx as (Hr & Hc & line & Hline & Hx).
  destruct Hb as [Hbr Hbc]. simpl in *. unfold board_get.
  destruct (getitem_in_range board r) as (line' & Hl' & ->); [done|].
  simplify_eq. simpl.
  destruct (getitem_in_range line c) as (x' & Hx' & ->).
  { rewrite (rectangular_lookup _ _ _ Hrect Hline). done. }
  by simplify_eq.
Qed.

Lemma head_row board :
  0 < rows board → getitem board 0 = Ret (default [] (head board)).
Proof.
  unfold rows, len. destruct board as [|line board]; simpl; [lia|done].
Qed.

Lemma ray_guard_rect board player r c :
  rectangular board →
  ray_guard board player r c = Ret (bool_decide (owned board player r c)).
Proof.
  intros Hrect. unfold ray_guard.
  destruct (cell_at board r c) as [x|] eqn:Hcell.
  - pose proof (cell_at_in_bounds _ _ _ _ Hrect Hcell) as Hb.
    destruct (board_get_cell_at _ _ _ Hrect Hb) as (x' & Hx' & Hget).
    destruct Hb as [Hr Hc]; simpl in *. fold (rows board).
    rewrite andb_true_intro by (split; [apply Z.leb_le|apply Z.ltb_lt]; lia).
    rewrite head_row by lia. simpl. fold (cols board).
    rewrite andb_true_intro by (split; [apply Z.leb_le|apply Z.ltb_lt]; lia).
    rewrite Hget. simpl. simplify_eq. f_equal.
    apply bool_decide_ext. unfold owned. rewrite Hcell.
    split; [by intros ->|by intros [= ->]].
  - rewrite (bool_decide_eq_false_2 (owned _ _ _ _))
      by (unfold owned; congruence).
    destruct ((0 <=? r) && (r <? len board)) eqn:Hr; [|done].
    apply andb_prop in Hr as [Hr1%Z.leb_le Hr2%Z.ltb_lt].
    rewrite head_row by (unfold rows; lia). simpl. fold (cols board).
    destruct ((0 <=? c) && (c <? cols board)) eqn:Hc; [|done].
    apply andb_prop in Hc as [Hc1%Z.leb_le Hc2%Z.ltb_lt].
    destruct (in_bounds_cell_at board (r, c) Hrect) as [x Hx].
    { split; simpl; unfold rows; lia. }
    simpl in Hx. congruence.
Qed.

(** ** The [while] loops terminate and count a ray *)

Lemma owned_in_bounds board player r c :
  rectangular board → owned board player r c → in_bounds board (r, c).
Proof. intros Hrect H. by eapply cell_at_in_bounds. Qed.

Lemma cells_ahead_owned board player dr dc r c :
  rectangular board → unit_step dr dc → owned board player r c →
  1 <= cells_ahead board dr dc r c <= rows board + cols board.
Proof.
  intros Hrect (Hdr & Hdc & Hne) [Hr Hc]%owned_in_bounds; [|done].
  simpl in *. unfold cells_ahead.
  destruct (Z.eqb_spec dr 1), (Z.eqb_spec dr (-1)), (Z.eqb_spec dc 1); lia.
Qed.

Lemma cells_ahead_step board dr dc r c :
  unit_step dr dc →
  cells_ahead board dr dc (r + dr) (c + dc) = cells_ahead board dr dc r c - 1.
Proof.
  intros (Hdr & Hdc & Hne). unfold cells_ahead.
  destruct (Z.eqb_spec dr 1), (Z.eqb_spec dr (-1)), (Z.eqb_spec dc 1); lia.
Qed.

Lemma count_ray_spec board player dr dc :
  rectangular board → unit_step dr dc →
  ∀ fuel r c count,
    (0 < fuel)%nat →
    (owned board player r c → cells_ahead board dr dc r c < Z.of_nat fuel) →
    ∃ n, count_ray fuel board player dr dc r c count = Ret (count + Z.of_nat n)
         ∧ ray_length board player dr dc r c n.
Proof.
  intros Hrect Hstep fuel.
  induction fuel as [|fuel IH]; intros r c count Hpos Hfuel; [lia|].
  simpl. rewrite ray_guard_rect by done. simpl.
  destruct (decide (owned board player r c)) as [Hown|Hown].
  - rewrite bool_decide_eq_true_2 by done.
    pose proof (cells_ahead_owned _ _ _ _ _ _ Hrect Hstep Hown) as Hahead.
    specialize (Hfuel Hown).
    destruct (IH (r + dr) (c + dc) (count + 1)) as (n & Hrun & Hall & Hstop).
    { lia. }
    { intros _. rewrite cells_ahead_step by done. lia. }
    exists (S n). split; [rewrite Hrun; f_equal; lia|]. split.
    + intros i Hi. destruct (decide (i = 0)) as [->|Hi0].
      * by rewrite !Z.mul_0_l, !Z.add_0_r.
      * replace (r + i * dr) with (r + dr + (i - 1) * dr) by lia.
        replace (c + i * dc) with (c + dc + (i - 1) * dc) by lia.
        apply Hall. lia.
    + replace (r + Z.of_nat (S n) * dr) with (r + dr + Z.of_nat n * dr) by lia.
      by replace (c + Z.of_nat (S n) * dc) with (c + dc + Z.of_nat n * dc) by lia.
  - rewrite bool_decide_eq_false_2 by done.
    exists 0%nat. split; [f_equal; simpl; lia|]. split.
    + intros i Hi. lia.
    + by rewrite !Z.mul_0_l, !Z.add_0_r.
Qed.

(** With the budget [ray_fuel] a loop always runs to its end. *)
Lemma count_ray_total board player dr dc r c count :
  rectangular board → unit_step dr dc →
  ∃ n, count_ray (ray_fuel board) board player dr dc r c count
         = Ret (count + Z.of_nat n)
       ∧ ray_length board player dr dc r c n.
Proof.
  intros Hrect Hstep. apply count_ray_spec; try done.
  - unfold ray_fuel. lia.
  - intros Hown.
    pose proof (cells_ahead_owned _ _ _ _ _ _ Hrect Hstep Hown).
    unfold ray_fuel, rows, cols, len in *. lia.
Qed.

Lemma ray_length_unique board player dr dc r c n n' :
  ray_length board player dr dc r c n → ray_length board player dr dc r c n' →
  n = n'.
Proof.
  intros [Hall Hstop] [Hall' Hstop'].
  destruct (Nat.lt_trichotomy n n') as [Hlt|[->|Hlt]]; [|done|].
  - destruct Hstop. apply Hall'. lia.
  - destruct Hstop'. apply Hall. lia.
Qed.

Lemma directions_unit_step dr dc :
  (dr, dc) ∈ directions → unit_step dr dc ∧ unit_step (- dr) (- dc).
Proof.
  unfold directions, unit_step. rewrite !elem_of_cons, elem_of_nil.
  intros [H|[H|[H|[H|[]]]]]; simplify_eq; lia.
Qed.

(** ** Writing a cell and writing it back *)

Lemma rectangular_insert board k line line' :
  rectangular board → board !! k = Some line → length line' = length line →
  rectangular (<[k:=line']> board).
Proof.
  unfold rectangular. intros Hrect Hk Hlen.
  assert (length (default [] (head (<[k:=line']> board)))
          = length (default [] (head board))) as Hhead.
  { destruct board as [|line0 board]; [done|].
    destruct k as [|k]; simpl in *; [by simplify_eq|done]. }
  rewrite Hhead. apply Forall_insert; [done|].
  rewrite Hlen. by eapply (Forall_lookup_1 _ _ _ _ Hrect).
Qed.

Lemma getitem_insert {A} (l : list A) i k x :
  py_index (length l) i = Some k → getitem (<[k:=x]> l) i = Ret x.
Proof.
  intros Hk. unfold getitem. rewrite length_insert, Hk.
  by rewrite list_lookup_insert_eq by by eapply py_index_lt.
Qed.

Lemma setitem_insert {A} (l : list A) i k x y :
  py_index (length l) i = Some k →
  setitem (<[k:=y]> l) i x = Ret (<[k:=x]> l).
Proof.
  intros Hk. unfold setitem.
  by rewrite length_insert, Hk, list_insert_insert_eq.
Qed.

(** A subscripted read that succeeds names one row and one position in
    it; the write through the same subscripts replaces that position. *)
Lemma board_set_shape board row col x v :
  board_get board row col = Ret x →
  ∃ k j line,
    py_index (length board) row = Some k ∧ board !! k = Some line ∧
    py_index (length line) col = Some j ∧ line !! j = Some x ∧
    board_set board row col v = Ret (<[k:=<[j:=v]> line]> board).
Proof.
  unfold board_get, board_set. intros Hget.
  destruct (getitem board row) as [line| |] eqn:Hline; simpl in Hget; try done.
  apply getitem_Ret in Hline as (k & Hk & Hline).
  apply getitem_Ret in Hget as (j & Hj & Hx).
  exists k, j, line. repeat split; try done.
  simpl. unfold setitem. rewrite Hj. simpl. by rewrite Hk.
Qed.

Lemma board_set_undo board row col x v board' :
  board_get board row col = Ret x →
  board_set board row col v = Ret board' →
  board_set board' row col x = Ret board.
Proof.
  intros Hget Hset.
  destruct (board_set_shape _ _ _ _ v Hget)
    as (k & j & line & Hk & Hline & Hj & Hx & Hset').
  rewrite Hset in Hset'. injection Hset' as ->.
  pose proof (py_index_lt _ _ _ Hk) as Hklt.
  pose proof (py_index_lt _ _ _ Hj) as Hjlt.
  unfold board_set.
  rewrite (getitem_insert _ _ _ _ Hk). simpl.
  rewrite (setitem_insert _ _ _ _ _ Hj). simpl.
  rewrite (setitem_insert _ _ _ _ _ Hk).
  by rewrite (list_insert_id line), (list_insert_id board).
Qed.

Lemma board_set_rectangular board row col x v board' :
  rectangular board → board_get board row col = Ret x →
  board_set board row col v = Ret board' → rectangular board'.
Proof.
  intros Hrect Hget Hset.
  destruct (board_set_shape _ _ _ _ v Hget)
    as (k & j & line & Hk & Hline & Hj & Hx & Hset').
  rewrite Hset in Hset'. injection Hset' as ->.
  eapply rectangular_insert; [done..|]. by rewrite length_insert.
Qed.

Lemma board_set_place board m player :
  rectangular board → in_bounds board m →
  board_set board m.1 m.2 (Some player) = Ret (place board m player).
Proof.
  intros Hrect Hb. destruct m as [row col].
  destruct (board_get_cell_at _ _ _ Hrect Hb) as (x & Hcell & Hget).
  destruct (board_set_shape _ _ _ _ (Some player) Hget)
    as (k & j & line & Hk & Hline & Hj & Hx & Hset).
  destruct Hb as [Hr Hc]. simpl in *. rewrite Hset. clear Hset.
  rewrite py_index_in_range in Hk by done. injection Hk as <-.
  rewrite py_index_in_range in Hj
    by (fold (len line); by rewrite (rectangular_lookup _ _ _ Hrect Hline)).
  injection Hj as <-. unfold place. simpl.
  destruct (Z.leb_spec 0 row), (Z.leb_spec 0 col); try lia. simpl.
  by rewrite Hline.
Qed.

Lemma owned_place board m player :
  rectangular board → in_bounds board m →
  owned (place board m player) player m.1 m.2.
Proof.
  intros Hrect Hb. destruct (in_bounds_cell_at _ _ Hrect Hb) as [x Hx].
  apply cell_at_inv in Hx as (Hr & Hc & line & Hline & Hx).
  unfold owned, place, cell_at.
  destruct (Z.leb_spec 0 m.1), (Z.leb_spec 0 m.2); try lia. simpl.
  rewrite Hline.
  rewrite list_lookup_insert_eq by by eapply lookup_lt_Some. simpl.
  rewrite list_lookup_insert_eq by by eapply lookup_lt_Some. done.
Qed.

(** Placing a stone changes no other cell. *)
Lemma cell_at_place_other board m player r c :
  (r, c) ≠ m → cell_at (place board m player) r c = cell_at board r c.
Proof.
  intros Hne. unfold place, cell_at. destruct m as [row col]. simpl.
  destruct (Z.leb_spec 0 row), (Z.leb_spec 0 col); simpl; try done.
  destruct (board !! Z.to_nat row) as [line|] eqn:Hline; [|done].
  destruct (Z.leb_spec 0 r), (Z.leb_spec 0 c); simpl; try done.
  destruct (decide (row = r)) as [->|Hr].
  - rewrite Hline.
    rewrite list_lookup_insert_eq by by eapply lookup_lt_Some. simpl.
    rewrite list_lookup_insert_ne; [done|]. intros ?.
    destruct Hne. f_equal. lia.
  - rewrite list_lookup_insert_ne; [done|]. lia.
Qed.

(** ** Running computations on the store *)

Lemma bind_reading_Ret {A B} (f : Board → result A) (k : A → M B) board a :
  f board = Ret a → (reading f ≫= k) board = k a board.
Proof. intros H. unfold mbind, M_bind, reading. by rewrite H. Qed.

Lemma bind_store_Ret {B} row col v (k : unit → M B) board board' :
  board_set board row col v = Ret board' →
  (store row col v ≫= k) board = k tt board'.
Proof. intros H. unfold mbind, M_bind, store. by rewrite H. Qed.

Lemma bind_Ret {A B} (m : M A) (k : A → M B) board a board' :
  m board = (Ret a, board') → (m ≫= k) board = k a board'.
Proof. intros H. unfold mbind, M_bind. by rewrite H. Qed.

(** ** The loop over the four axes *)

Lemma for_directions_cons dr dc rest row col player :
  for_directions ((dr, dc) :: rest) row col player =
    (count ← reading (fun board =>
       count_ray (ray_fuel board) board player dr dc (row + dr) (col + dc) 1);
     count ← reading (fun board =>
       count_ray (ray_fuel board) board player (- dr) (- dc)
         (row - dr) (col - dc) count);
     if 5 <=? count then store row col None;; mret true
     else for_directions rest row col player).
Proof. done. Qed.

Lemma for_directions_run dirs row col player board1 board0 :
  rectangular board1 →
  board_set board1 row col None = Ret board0 →
  (∀ d, d ∈ dirs → d ∈ directions) →
  ∃ five, for_directions dirs row col player board1 = (Ret five, board0) ∧
    (five = true ↔ ∃ d, d ∈ dirs ∧ axis_five board1 player row col d).
Proof.
  intros Hrect Hundo. induction dirs as [|[dr dc] dirs IH]; intros Hdirs.
  - exists false. split.
    + simpl. by erewrite bind_store_Ret.
    + split; [done|]. intros (d & Hd & _). by apply elem_of_nil in Hd.
  - destruct (directions_unit_step dr dc) as [Hfwd Hbwd].
    { apply Hdirs. left. }
    destruct (count_ray_total board1 player dr dc (row + dr) (col + dc) 1
                Hrect Hfwd) as (nf & Hcf & Hnf).
    destruct (count_ray_total board1 player (- dr) (- dc) (row - dr) (col - dc)
                (1 + Z.of_nat nf) Hrect Hbwd) as (nb & Hcb & Hnb).
    rewrite for_directions_cons.
    erewrite bind_reading_Ret by exact Hcf.
    erewrite bind_reading_Ret by exact Hcb.
    destruct (Z.leb_spec 5 (1 + Z.of_nat nf + Z.of_nat nb)) as [Hfive|Hfive].
    + exists true. split.
      * by erewrite bind_store_Ret.
      * split; [|done]. intros _. exists (dr, dc). split; [left|].
        exists nf, nb. done.
    + destruct IH as (five & Hrun & Hiff).
      { intros d Hd. apply Hdirs. by right. }
      exists five. split; [done|]. rewrite Hiff. split.
      * intros (d & Hd & Hax). exists d. split; [by right|done].
      * intros (d & Hd & Hax). apply elem_of_cons in Hd as [->|Hd]; [|eauto].
        destruct Hax as (nf' & nb' & Hnf' & Hnb' & Hge). simpl in *.
        rewrite <- (ray_length_unique _ _ _ _ _ _ _ _ Hnf Hnf') in Hge.
        rewrite <- (ray_length_unique _ _ _ _ _ _ _ _ Hnb Hnb') in Hge.
        lia.
Qed.

(** ** The detector as a whole *)

(** On a rectangular board the detector either fails on its first
    subscripted read, or finds a stone and answers [False], or finds the
    cell empty and answers by the axes of the board with the stone on it.
    In every case it hands the board back as it got it. *)
Lemma creates_five_in_row_run m player board :
  rectangular board →
  match board_get board m.1 m.2 with
  | Ret None =>
      ∃ board1 five,
        board_set board m.1 m.2 (Some player) = Ret board1 ∧
        rectangular board1 ∧
        _creates_five_in_row m player board = (Ret five, board) ∧
        (five = true ↔ ∃ d, d ∈ directions ∧ axis_five board1 player m.1 m.2 d)
  | Ret (Some _) => _creates_five_in_row m player board = (Ret false, board)
  | Raise e => _creates_five_in_row m player board = (Raise e, board)
  | OutOfFuel => _creates_five_in_row m player board = (OutOfFuel, board)
  end.
Proof.
  intros Hrect. destruct m as [row col]. simpl.
  unfold _creates_five_in_row, load, mbind, M_bind, reading, store.
  destruct (board_get board row col) as [[stone|]| |] eqn:Hget; try done.
  destruct (board_set_shape _ _ _ _ (Some player) Hget)
    as (k & j & line & Hk & Hline & Hj & Hx & Hset).
  pose proof (board_set_undo _ _ _ _ _ _ Hget Hset) as Hundo.
  pose proof (board_set_rectangular _ _ _ _ _ _ Hrect Hget Hset) as Hrect1.
  destruct (for_directions_run directions row col player _ _ Hrect1 Hundo)
    as (five & Hrun & Hiff); [done|].
  eexists _, five. split; [done|]. split; [done|]. split; [|done].
  by rewrite Hset.
Qed.

Lemma creates_five_in_row_board m player board :
  rectangular board → (_creates_five_in_row m player board).2 = board.
Proof.
  intros Hrect. pose proof (creates_five_in_row_run m player board Hrect) as H.
  destruct (board_get board m.1 m.2) as [[stone|]| |].
  - by rewrite H.
  - destruct H as (board1 & five & _ & _ & -> & _). done.
  - by rewrite H.
  - by rewrite H.
Qed.

Lemma cell_at_board_get board r c x :
  cell_at board r c = Some x → board_get board r c = Ret x.
Proof.
  intros (Hr & Hc & line & Hline & Hx)%cell_at_inv. unfold board_get.
  destruct (getitem_in_range board r) as (line' & Hl' & ->).
  { apply lookup_lt_Some in Hline. unfold len. lia. }
  simplify_eq. simpl.
  destruct (getitem_in_range line c) as (x' & Hx' & ->).
  { apply lookup_lt_Some in Hx. unfold len. lia. }
  by simplify_eq.
Qed.

(** On a rectangular board, a probe of a cell of the board is answered. *)
Lemma creates_five_in_row_answers board m player :
  rectangular board → in_bounds board m →
  wins board m player ∨ no_win board m player.
Proof.
  intros Hrect Hb.
  pose proof (creates_five_in_row_run m player board Hrect) as Hrun.
  destruct m as [row col].
  destruct (board_get_cell_at _ _ _ Hrect Hb) as (x & _ & Hget).
  simpl in Hrun. rewrite Hget in Hrun. unfold wins, no_win.
  destruct x as [stone|].
  - right. by rewrite Hrun.
  - destruct Hrun as (board1 & five & _ & _ & -> & _).
    destruct five; [by left|by right].
Qed.

(** ** Counted stones and runs through the placed stone *)

Lemma axis_five_run board player m d :
  rectangular board → d ∈ directions → owned board player m.1 m.2 →
  axis_five board player m.1 m.2 d ↔
  ∃ lo hi, run_through board player m d lo hi ∧ 5 <= hi - lo + 1.
Proof.
  intros Hrect Hd Hm. destruct d as [dr dc].
  destruct (directions_unit_step _ _ Hd) as [Hfwd Hbwd]. split.
  - intros (nf & nb & [Hf _] & [Hb _] & Hge). simpl in *.
    exists (- Z.of_nat nb), (Z.of_nat nf). split; [|lia].
    split; [lia|]. intros i Hi. simpl.
    destruct (Z.lt_trichotomy i 0) as [Hneg|[->|Hpos]].
    + replace (m.1 + i * dr) with (m.1 - dr + (- i - 1) * - dr) by lia.
      replace (m.2 + i * dc) with (m.2 - dc + (- i - 1) * - dc) by lia.
      apply Hb. lia.
    + by rewrite !Z.mul_0_l, !Z.add_0_r.
    + replace (m.1 + i * dr) with (m.1 + dr + (i - 1) * dr) by lia.
      replace (m.2 + i * dc) with (m.2 + dc + (i - 1) * dc) by lia.
      apply Hf. lia.
  - intros (lo & hi & [Hlohi Hrun] & Hge). simpl in *.
    destruct (count_ray_total board player dr dc (m.1 + dr) (m.2 + dc) 0
                Hrect Hfwd) as (nf & _ & Hnf).
    destruct (count_ray_total board player (- dr) (- dc) (m.1 - dr) (m.2 - dc) 0
                Hrect Hbwd) as (nb & _ & Hnb).
    exists nf, nb. split; [done|]. split; [done|].
    assert (hi <= Z.of_nat nf) as Hhi.
    { destruct (Z.le_gt_cases hi (Z.of_nat nf)) as [|Hgt]; [done|].
      destruct Hnf as [_ []].
      replace (m.1 + dr + Z.of_nat nf * dr)
        with (m.1 + (Z.of_nat nf + 1) * dr) by lia.
      replace (m.2 + dc + Z.of_nat nf * dc)
        with (m.2 + (Z.of_nat nf + 1) * dc) by lia.
      apply Hrun. lia. }
    assert (- Z.of_nat nb <= lo) as Hlo.
    { destruct (Z.le_gt_cases (- Z.of_nat nb) lo) as [|Hgt]; [done|].
      destruct Hnb as [_ []].
      replace (m.1 - dr + Z.of_nat nb * - dr)
        with (m.1 + (- Z.of_nat nb - 1) * dr) by lia.
      replace (m.2 - dc + Z.of_nat nb * - dc)
        with (m.2 + (- Z.of_nat nb - 1) * dc) by lia.
      apply Hrun. lia. }
    lia.
Qed.

(** ** Claims about the win detector *)

(** C1. On a rectangular board, for an empty cell [m] of the board and
    any player, [_creates_five_in_row] returns a boolean, and it is [True]
    exactly when the board with the player's stone on [m] has, along one
    of the four axes, a contiguous run of at least five stones of that
    player through [m]. *)
Theorem creates_five_in_row_iff board m player :
  rectangular board → in_bounds board m → empty_at board m →
  ∃ five, (_creates_five_in_row m player board).1 = Ret five ∧
          (five = true ↔ makes_five board m player).
Proof.
  intros Hrect Hb Hempty.
  pose proof (creates_five_in_row_run m player board Hrect) as Hrun.
  rewrite (cell_at_board_get _ _ _ _ Hempty) in Hrun.
  destruct Hrun as (board1 & five & Hset & Hrect1 & Hrun & Hiff).
  rewrite board_set_place in Hset by done. injection Hset as <-.
  exists five. split; [by rewrite Hrun|]. rewrite Hiff. unfold makes_five.
  split.
  - intros (d & Hd & Hax). exists d.
    apply axis_five_run in Hax as (lo & hi & Hlohi);
      [|done..|by apply owned_place].
    exists lo, hi. tauto.
  - intros (d & lo & hi & Hd & Hlohi). exists d. split; [done|].
    apply axis_five_run; [done..|by apply owned_place|eauto].
Qed.

Lemma creates_five_in_row_iff_witness :
  ∃ five, (_creates_five_in_row (3, 2) X four_in_row).1 = Ret five ∧
          (five = true ↔ makes_five four_in_row (3, 2) X).
Proof.
  apply creates_five_in_row_iff.
  - apply (bool_decide_unpack _). vm_compute. exact I.
  - apply (bool_decide_unpack _). vm_compute. exact I.
  - vm_compute. reflexivity.
Defined.

(** C4. On a rectangular board, whatever the move and the player, the
    call ends (it returns or raises) and the board afterwards is the board
    before, cell by cell: also when the answer is [True], when the probed
    cell holds a stone, and when the subscripts are out of range. *)
Theorem creates_five_in_row_restores_board board m player :
  rectangular board →
  (_creates_five_in_row m player board).1 ≠ OutOfFuel ∧
  (_creates_five_in_row m player board).2 = board ∧
  ∀ r c, cell_at (_creates_five_in_row m player board).2 r c = cell_at board r c.
Proof.
  intros Hrect.
  rewrite (creates_five_in_row_board m player board Hrect).
  split; [|done].
  pose proof (creates_five_in_row_run m player board Hrect) as Hrun.
  destruct (board_get board m.1 m.2) as [[stone|]| |] eqn:Hget.
  - by rewrite Hrun.
  - by destruct Hrun as (board1 & five & _ & _ & -> & _).
  - by rewrite Hrun.
  - unfold board_get, getitem in Hget.
    repeat (case_match; simplify_eq; simpl in * ).
Qed.

Lemma creates_five_in_row_restores_board_witness :
  (_creates_five_in_row (3, 7) X four_in_row).1 ≠ OutOfFuel ∧
  (_creates_five_in_row (3, 7) X four_in_row).2 = four_in_row ∧
  ∀ r c, cell_at (_creates_five_in_row (3, 7) X four_in_row).2 r c
         = cell_at four_in_row r c.
Proof.
  apply creates_five_in_row_restores_board.
  apply (bool_decide_unpack _). vm_compute. exact I.
Defined.

(** Where a row is shorter than the first one, the walk down a column
    raises [IndexError] with the stone still on the board. *)
Example creates_five_in_row_ragged :
  _creates_five_in_row (0, 1) X ragged_board
  = (Raise IndexError, [[None; Some X]; [None]]).
Proof. reflexivity. Qed.

(** C9, as the code has it. A probe of a cell that holds a stone returns
    [False] without raising and leaves the board as it is. *)
Theorem creates_five_in_row_occupied board m player stone :
  cell_at board m.1 m.2 = Some (Some stone) →
  _creates_five_in_row m player board = (Ret false, board).
Proof.
  intros Hcell%cell_at_board_get. destruct m as [row col]. simpl in *.
  unfold _creates_five_in_row, load, mbind, M_bind, reading.
  by rewrite Hcell.
Qed.

Lemma creates_five_in_row_occupied_witness :
  _creates_five_in_row (3, 4) O four_in_row = (Ret false, four_in_row).
Proof.
  apply (creates_five_in_row_occupied four_in_row (3, 4) O X).
  vm_compute. reflexivity.
Defined.

(** C9, as stated, fails: the cell (3,3) of [four_in_row] holds a stone,
    and the probe returns [False] instead of raising. *)
Lemma creates_five_in_row_occupied_no_error :
  cell_at four_in_row 3 3 = Some (Some X) ∧
  (_creates_five_in_row (3, 3) O four_in_row).1 = Ret false.
Proof. split; vm_compute; reflexivity. Qed.

(** ** The position scorer *)

Lemma neighbour_guard_rect board r c :
  rectangular board → neighbour_guard board r c = Ret (occupied board r c).
Proof.
  intros Hrect. unfold neighbour_guard, occupied.
  destruct (cell_at board r c) as [x|] eqn:Hcell.
  - pose proof (cell_at_in_bounds _ _ _ _ Hrect Hcell) as [Hr Hc].
    simpl in *. fold (rows board).
    rewrite andb_true_intro by (split; [apply Z.leb_le|apply Z.ltb_lt]; lia).
    rewrite head_row by lia. simpl. fold (cols board).
    rewrite andb_true_intro by (split; [apply Z.leb_le|apply Z.ltb_lt]; lia).
    rewrite (cell_at_board_get _ _ _ _ Hcell). by destruct x.
  - destruct ((0 <=? r) && (r <? len board)) eqn:Hr; [|done].
    apply andb_prop in Hr as [Hr1%Z.leb_le Hr2%Z.ltb_lt].
    rewrite head_row by (unfold rows; lia). simpl. fold (cols board).
    destruct ((0 <=? c) && (c <? cols board)) eqn:Hc; [|done].
    apply andb_prop in Hc as [Hc1%Z.leb_le Hc2%Z.ltb_lt].
    destruct (in_bounds_cell_at board (r, c) Hrect) as [x Hx].
    { split; simpl; unfold rows; lia. }
    simpl in Hx. congruence.
Qed.

Lemma py_max0_Qmax x : (py_max0 x == Qmax 0 x)%Q.
Proof.
  unfold py_max0. destruct (Qlt_le_dec 0 x) as [Hlt|Hle].
  - symmetry. apply Q.max_r. by apply Qlt_le_weak.
  - symmetry. by apply Q.max_l.
Qed.

Lemma evaluate_move_rect board row col player :
  rectangular board →
  ∃ s, _evaluate_move board (row, col) player = Ret s ∧
       (s == centrality row col + density board row col)%Q.
Proof.
  intros Hrect. unfold _evaluate_move.
  set (base := (0 + py_max0 _)%Q).
  assert (base == centrality row col)%Q as Hbase.
  { unfold base, centrality, center_gap.
    by rewrite py_max0_Qmax, Qplus_0_l. }
  clearbody base. simpl.
  rewrite !neighbour_guard_rect by done. simpl.
  eexists. split; [done|]. rewrite <- Hbase.
  unfold density, moore. rewrite !filter_cons, filter_nil. simpl.
  destruct (occupied board (row + -1) (col + -1)),
    (occupied board (row + -1) (col + 0)),
    (occupied board (row + -1) (col + 1)),
    (occupied board (row + 0) (col + -1)),
    (occupied board (row + 0) (col + 1)),
    (occupied board (row + 1) (col + -1)),
    (occupied board (row + 1) (col + 0)),
    (occupied board (row + 1) (col + 1)); simpl;
    match goal with
    | |- context [inject_Z ?z] =>
        let v := eval vm_compute in z in change z with v
    end; ring.
Qed.

(** ** Claims about the position scorer *)

(** C5. On a rectangular board, for a cell [m] of the board, the scorer
    returns the centrality term [max(0, 7 - (|row - 3.5| + |col - 3.5|))]
    plus 2 for each of the eight neighbours that is on the board and not
    empty, whoever holds it, and nothing else; and on the empty 8 by 8
    board the cell (3,3) scores strictly more than the cell (0,0). *)
Theorem evaluate_move_score :
  (∀ board m player,
     rectangular board → in_bounds board m →
     ∃ s, _evaluate_move board m player = Ret s ∧
          (s == centrality m.1 m.2 + density board m.1 m.2)%Q) ∧
  (∀ player,
     ∃ s33 s00,
       _evaluate_move empty_board (3, 3) player = Ret s33 ∧
       _evaluate_move empty_board (0, 0) player = Ret s00 ∧
       (s00 < s33)%Q).
Proof.
  split.
  - intros board [row col] player Hrect _. by apply evaluate_move_rect.
  - intros player. eexists _, _. split; [|split]; [vm_compute; done..|].
    vm_compute. done.
Qed.

Lemma evaluate_move_score_witness :
  ∃ s, _evaluate_move centre_taken (2, 3) O = Ret s ∧
       (s == centrality 2 3 + density centre_taken 2 3)%Q.
Proof.
  apply (proj1 evaluate_move_score centre_taken (2, 3) O).
  - apply (bool_decide_unpack _). vm_compute. exact I.
  - apply (bool_decide_unpack _). vm_compute. exact I.
Defined.

(** C10. The scorer does not look at its [player] argument: on any board
    and for any move it gives both players the same result. *)
Theorem evaluate_move_ignores_player board m (p q : Player) :
  _evaluate_move board m p = _evaluate_move board m q.
Proof. by destruct m. Qed.

(** ** The two scans of the legal moves *)

Lemma creates_five_in_row_pair m player board five :
  rectangular board →
  (_creates_five_in_row m player board).1 = Ret five →
  _creates_five_in_row m player board = (Ret five, board).
Proof.
  intros Hrect Hfive.
  pose proof (creates_five_in_row_board m player board Hrect) as Hboard.
  destruct (_creates_five_in_row m player board) as [res board'].
  simpl in *. by subst.
Qed.

Lemma not_wins_no_win board m player :
  rectangular board → in_bounds board m →
  ¬ wins board m player → no_win board m player.
Proof.
  intros Hrect Hb Hnot.
  by destruct (creates_five_in_row_answers board m player Hrect Hb).
Qed.

Lemma first_five_cons move rest player :
  first_five (move :: rest) player =
    (five ← _creates_five_in_row move player;
     if five : bool then mret (Some move) else first_five rest player).
Proof. done. Qed.

(** Every move refused: the loop runs to its end. *)
Lemma first_five_miss moves player board :
  rectangular board →
  Forall (in_bounds board) moves →
  Forall (fun x => ¬ wins board x player) moves →
  first_five moves player board = (Ret None, board).
Proof.
  intros Hrect Hin Hnone.
  induction moves as [|x moves IH]; [done|].
  apply Forall_cons in Hin as [Hx Hin].
  apply Forall_cons in Hnone as [Hnx Hnone].
  rewrite first_five_cons.
  erewrite bind_Ret
    by (apply creates_five_in_row_pair; [done|by apply not_wins_no_win]).
  by apply IH.
Qed.

(** The loop returns the first move the detector accepts. *)
Lemma first_five_hit pre m post player board :
  rectangular board →
  Forall (in_bounds board) pre →
  Forall (fun x => ¬ wins board x player) pre →
  wins board m player →
  first_five (pre ++ m :: post) player board = (Ret (Some m), board).
Proof.
  intros Hrect Hin Hnone Hwin.
  induction pre as [|x pre IH]; simpl app.
  - rewrite first_five_cons.
    by erewrite bind_Ret by (by apply creates_five_in_row_pair).
  - apply Forall_cons in Hin as [Hx Hin].
    apply Forall_cons in Hnone as [Hnx Hnone].
    rewrite first_five_cons.
    erewrite bind_Ret
      by (apply creates_five_in_row_pair; [done|by apply not_wins_no_win]).
    by apply IH.
Qed.

(** A list of moves either has a first accepted move or none at all. *)
Lemma first_win_split board player moves :
  Forall (fun x => ¬ wins board x player) moves ∨
  ∃ pre m post, moves = pre ++ m :: post ∧
    Forall (fun x => ¬ wins board x player) pre ∧ wins board m player.
Proof.
  induction moves as [|x moves IH]; [by left|].
  destruct (decide (wins board x player)) as [Hx|Hx].
  - right. exists [], x, moves. by repeat split.
  - destruct IH as [Hnone|(pre & m & post & -> & Hpre & Hm)].
    + left. by constructor.
    + right. exists (x :: pre), m, post. repeat split; [|done]. by constructor.
Qed.

(** ** The order of scored moves and the sort *)

Lemma move_lt_spec (a b : Move) :
  move_lt a b = true ↔ a.1 < b.1 ∨ (a.1 = b.1 ∧ a.2 < b.2).
Proof.
  unfold move_lt. destruct (Z.eqb_spec a.1 b.1) as [Heq|Hne].
  - rewrite Z.ltb_lt. lia.
  - rewrite Z.ltb_lt. lia.
Qed.

Lemma scored_lt_spec a b : scored_lt a b = true ↔ scored_below a b.
Proof.
  unfold scored_lt, scored_below.
  destruct (Qcompare_spec a.1 b.1) as [Heq|Hlt|Hgt].
  - rewrite move_lt_spec. split; [by right|].
    intros [Hlt|[_ H]]; [|done]. rewrite Heq in Hlt.
    by apply Qlt_irrefl in Hlt.
  - split; [by left|done].
  - split; [done|]. intros [Hlt|[Heq _]].
    + destruct (Qlt_irrefl a.1). by etrans.
    + rewrite Heq in Hgt. by apply Qlt_irrefl in Hgt.
Qed.

Lemma scored_below_irrefl a : ¬ scored_below a a.
Proof.
  intros [Hlt|[_ H]]; [by apply Qlt_irrefl in Hlt|lia].
Qed.

Lemma scored_below_asym a b : scored_below a b → ¬ scored_below b a.
Proof.
  intros [Hab|[Heq Hm]] [Hba|[Heq' Hm']].
  - destruct (Qlt_irrefl a.1). by etrans.
  - rewrite Heq' in Hab. by apply Qlt_irrefl in Hab.
  - rewrite Heq in Hba. by apply Qlt_irrefl in Hba.
  - lia.
Qed.

(** If [x] is not below [h] and [h] is not below [y], [x] is not below [y]. *)
Lemma scored_below_neg_trans x h y :
  ¬ scored_below x h → ¬ scored_below h y → ¬ scored_below x y.
Proof.
  unfold scored_below. intros Hxh Hhy Hxy.
  assert (h.1 <= x.1)%Q as Hhx by (apply Qnot_lt_le; tauto).
  assert (y.1 <= h.1)%Q as Hyh by (apply Qnot_lt_le; tauto).
  destruct Hxy as [Hlt|[Heq Hm]].
  - apply (Qlt_irrefl x.1). eapply Qlt_le_trans; [exact Hlt|].
    eapply Qle_trans; [exact Hyh|exact Hhx].
  - assert (x.1 == h.1)%Q as Hxh1.
    { apply Qle_antisym; [|done]. by rewrite Heq. }
    assert (h.1 == y.1)%Q as Hhy1 by (by rewrite <- Hxh1).
    assert (¬ (x.2.1 < h.2.1 ∨ x.2.1 = h.2.1 ∧ x.2.2 < h.2.2)) by tauto.
    assert (¬ (h.2.1 < y.2.1 ∨ h.2.1 = y.2.1 ∧ h.2.2 < y.2.2)) by tauto.
    lia.
Qed.

Lemma insert_desc_not_nil x l : insert_desc x l ≠ [].
Proof. destruct l as [|y l]; simpl; [done|]. by destruct (scored_lt x y). Qed.

Lemma sort_reverse_nil l : sort_reverse l = [] → l = [].
Proof.
  destruct l as [|x l]; [done|]. simpl. intros H.
  by apply insert_desc_not_nil in H.
Qed.

(** The first item after the sort is an item of the list that is below
    no item of the list. *)
Lemma sort_reverse_head l h t :
  sort_reverse l = h :: t →
  h ∈ l ∧ ∀ y, y ∈ l → ¬ scored_below h y.
Proof.
  revert h t. induction l as [|x l IH]; intros h t; [done|].
  simpl. destruct (sort_reverse l) as [|h0 t0] eqn:Hsort.
  - apply sort_reverse_nil in Hsort as ->. simpl. intros [= <- <-].
    split; [left|]. intros y ->%list_elem_of_singleton.
    apply scored_below_irrefl.
  - destruct (IH h0 t0 eq_refl) as [Hh0 Hdom]. simpl.
    destruct (scored_lt x h0) eqn:Hlt.
    + intros [= <- <-]. split; [by right|].
      intros y [->|Hy]%elem_of_cons; [|by apply Hdom].
      apply scored_below_asym. by apply scored_lt_spec.
    + intros [= <- <-]. split; [left|].
      intros y [->|Hy]%elem_of_cons; [apply scored_below_irrefl|].
      apply (scored_below_neg_trans x h0 y); [|by apply Hdom].
      rewrite <- scored_lt_spec. by rewrite Hlt.
Qed.

(** ** The scoring loop *)

Lemma score_moves_cons move rest board player scored_moves :
  score_moves (move :: rest) board player scored_moves =
    (score ← _evaluate_move board move player;
     score_moves rest board player (scored_moves ++ [(score, move)])).
Proof. done. Qed.

(** The loop appends, for each move in turn, the move with its score. *)
Lemma score_moves_run board player moves acc :
  rectangular board →
  ∃ scored,
    score_moves moves board player acc = Ret (acc ++ scored) ∧
    Forall2 (fun sm m => sm.2 = m ∧ _evaluate_move board m player = Ret sm.1)
      scored moves.
Proof.
  intros Hrect. revert acc.
  induction moves as [|[row col] moves IH]; intros acc.
  - exists []. split; [by rewrite app_nil_r|constructor].
  - destruct (evaluate_move_rect board row col player Hrect) as (s & Hs & _).
    destruct (IH (acc ++ [(s, (row, col))])) as (scored & Hrun & Hall).
    exists ((s, (row, col)) :: scored). split.
    + rewrite score_moves_cons, Hs. simpl. rewrite Hrun.
      by rewrite <- app_assoc.
    + by constructor.
Qed.

(** ** The selector, stage by stage *)

Lemma get_strategic_move_unfold game_state :
  _get_strategic_move game_state =
    (won ← first_five (get_legal_moves game_state) (current_player game_state);
     match won with
     | Some move => mret move
     | None =>
       blocked ← first_five (get_legal_moves game_state)
                   (opponent (current_player game_state));
       match blocked with
       | Some move => mret move
       | None =>
         match find (fun move => bool_decide (move ∈ get_legal_moves game_state))
                 center_moves with
         | Some move => mret move
         | None =>
           scored_moves ← reading (fun board =>
             score_moves (get_legal_moves game_state) board
               (current_player game_state) []);
           best ← reading (fun _ => getitem (sort_reverse scored_moves) 0);
           mret best.2
         end
       end
     end).
Proof. done. Qed.

(** Stage 1: the first legal move that wins is returned. *)
Lemma get_strategic_move_win game_state board pre m post :
  rectangular board →
  Forall (in_bounds board) pre →
  get_legal_moves game_state = pre ++ m :: post →
  Forall (fun x => ¬ wins board x (current_player game_state)) pre →
  wins board m (current_player game_state) →
  _get_strategic_move game_state board = (Ret m, board).
Proof.
  intros Hrect Hin Hlegal Hpre Hm. rewrite get_strategic_move_unfold, Hlegal.
  by erewrite bind_Ret by (by apply first_five_hit).
Qed.

(** Stage 2: no legal move wins; the first one that would win for the
    opponent is returned. *)
Lemma get_strategic_move_block game_state board pre m post :
  rectangular board →
  Forall (in_bounds board) (get_legal_moves game_state) →
  Forall (fun x => ¬ wins board x (current_player game_state))
    (get_legal_moves game_state) →
  get_legal_moves game_state = pre ++ m :: post →
  Forall (fun x => ¬ wins board x (opponent (current_player game_state))) pre →
  wins board m (opponent (current_player game_state)) →
  _get_strategic_move game_state board = (Ret m, board).
Proof.
  intros Hrect Hin Hnone Hlegal Hpre Hm. rewrite get_strategic_move_unfold.
  erewrite bind_Ret by (by apply first_five_miss).
  cbv beta iota. rewrite Hlegal in Hin |- *.
  apply Forall_app in Hin as [Hin _].
  by erewrite bind_Ret by (by apply first_five_hit).
Qed.

Lemma getitem_head {A} (l : list A) :
  getitem l 0 = match l with h :: _ => Ret h | [] => Raise IndexError end.
Proof. by destruct l. Qed.

Lemma find_first {A} (f : A → bool) pre c post :
  Forall (fun x => f x = false) pre → f c = true →
  find f (pre ++ c :: post) = Some c.
Proof.
  intros Hpre Hc. induction Hpre as [|x pre Hx _ IH]; simpl.
  - by rewrite Hc.
  - by rewrite Hx.
Qed.

Lemma find_nothing {A} (f : A → bool) l :
  Forall (fun x => f x = false) l → find f l = None.
Proof. induction 1 as [|x l Hx _ IH]; simpl; [done|]. by rewrite Hx. Qed.

(** Stages 3 and 4 are reached when neither player has a winning move:
    the first free central cell is returned, or else the move of the first
    tuple of the sorted list of scored moves. *)
Lemma get_strategic_move_quiet game_state board :
  rectangular board →
  Forall (in_bounds board) (get_legal_moves game_state) →
  Forall (fun x => ¬ wins board x (current_player game_state))
    (get_legal_moves game_state) →
  Forall (fun x => ¬ wins board x (opponent (current_player game_state)))
    (get_legal_moves game_state) →
  ∃ scored,
    Forall2 (fun sm m => sm.2 = m ∧
               _evaluate_move board m (current_player game_state) = Ret sm.1)
      scored (get_legal_moves game_state) ∧
    _get_strategic_move game_state board =
      match find (fun move => bool_decide (move ∈ get_legal_moves game_state))
              center_moves with
      | Some move => (Ret move, board)
      | None =>
          match sort_reverse scored with
          | best :: _ => (Ret best.2, board)
          | [] => (Raise IndexError, board)
          end
      end.
Proof.
  intros Hrect Hin Hme Hopp.
  destruct (score_moves_run board (current_player game_state)
              (get_legal_moves game_state) [] Hrect) as (scored & Hrun & Hall).
  exists scored. split; [done|]. rewrite get_strategic_move_unfold.
  erewrite bind_Ret by (by apply first_five_miss). cbv beta iota.
  erewrite bind_Ret by (by apply first_five_miss). cbv beta iota.
  destruct (find _ center_moves) as [c|]; [done|].
  erewrite bind_reading_Ret by exact Hrun.
  unfold mbind, M_bind, reading. rewrite getitem_head, app_nil_l.
  by destruct (sort_reverse scored).
Qed.

(** Stage 4: the move returned has the greatest [(score, row, col)]. *)
Lemma get_strategic_move_best game_state board :
  rectangular board →
  Forall (in_bounds board) (get_legal_moves game_state) →
  get_legal_moves game_state ≠ [] →
  Forall (fun x => ¬ wins board x (current_player game_state))
    (get_legal_moves game_state) →
  Forall (fun x => ¬ wins board x (opponent (current_player game_state)))
    (get_legal_moves game_state) →
  find (fun move => bool_decide (move ∈ get_legal_moves game_state))
    center_moves = None →
  ∃ m s,
    _get_strategic_move game_state board = (Ret m, board) ∧
    m ∈ get_legal_moves game_state ∧
    _evaluate_move board m (current_player game_state) = Ret s ∧
    ∀ m' s', m' ∈ get_legal_moves game_state →
      _evaluate_move board m' (current_player game_state) = Ret s' →
      ¬ scored_below (s, m) (s', m').
Proof.
  intros Hrect Hin Hne Hme Hopp Hcentre.
  destruct (get_strategic_move_quiet game_state board Hrect Hin Hme Hopp)
    as (scored & Hall & Hrun).
  rewrite Hcentre in Hrun.
  destruct (sort_reverse scored) as [|[s m] t] eqn:Hsort.
  { apply sort_reverse_nil in Hsort as ->.
    apply Forall2_nil_inv_l in Hall. done. }
  destruct (sort_reverse_head _ _ _ Hsort) as [Hhead Hdom].
  apply list_elem_of_lookup in Hhead as [i Hi].
  destruct (Forall2_lookup_l _ _ _ _ _ Hall Hi) as (m0 & Hm0 & Heq & Hs).
  simpl in *. subst m0.
  exists m, s. split; [done|]. split; [by eapply list_elem_of_lookup_2|].
  split; [done|]. intros m' s' Hm' Hs'.
  apply list_elem_of_lookup in Hm' as [j Hj].
  destruct (Forall2_lookup_r _ _ _ _ _ Hall Hj) as ([s0 m0] & Hsm & Heq' & Hs0).
  simpl in *. subst m0. rewrite Hs' in Hs0. injection Hs0 as <-.
  apply Hdom. by eapply list_elem_of_lookup_2.
Qed.

(** Whatever the stage, a move of the list is returned. *)
Lemma get_strategic_move_member game_state board :
  rectangular board →
  Forall (in_bounds board) (get_legal_moves game_state) →
  get_legal_moves game_state ≠ [] →
  ∃ m, _get_strategic_move game_state board = (Ret m, board) ∧
       m ∈ get_legal_moves game_state.
Proof.
  intros Hrect Hin Hne.
  destruct (first_win_split board (current_player game_state)
              (get_legal_moves game_state))
    as [Hme|(pre & m & post & Hlegal & Hpre & Hm)].
  2: { exists m. split.
       - eapply get_strategic_move_win; [done| |done..].
         rewrite Hlegal in Hin. by apply Forall_app in Hin as [? _].
       - rewrite Hlegal. apply elem_of_app. right. left. }
  destruct (first_win_split board (opponent (current_player game_state))
              (get_legal_moves game_state))
    as [Hopp|(pre & m & post & Hlegal & Hpre & Hm)].
  2: { exists m. split.
       - by eapply get_strategic_move_block.
       - rewrite Hlegal. apply elem_of_app. right. left. }
  destruct (find (fun move => bool_decide (move ∈ get_legal_moves game_state))
              center_moves) as [c|] eqn:Hcentre.
  - destruct (get_strategic_move_quiet game_state board Hrect Hin Hme Hopp)
      as (scored & _ & Hrun).
    rewrite Hcentre in Hrun. exists c. split; [done|].
    apply find_some in Hcentre as [_ Hc]. by apply bool_decide_eq_true in Hc.
  - destruct (get_strategic_move_best game_state board Hrect Hin Hne Hme Hopp
                Hcentre) as (m & s & Hrun & Hm & _).
    by exists m.
Qed.

(** ** Claims about the fallback move selector *)

(** C2. On a rectangular board with legal moves on the board, when some
    legal move wins for the player to move, the selector returns the first
    such move of the list, whatever the scores of the other moves, and
    leaves the board as it was. *)
Theorem strategic_move_first_win game_state board pre m post :
  rectangular board →
  Forall (in_bounds board) (get_legal_moves game_state) →
  get_legal_moves game_state = pre ++ m :: post →
  Forall (fun x => ¬ wins board x (current_player game_state)) pre →
  wins board m (current_player game_state) →
  _get_strategic_move game_state board = (Ret m, board).
Proof.
  intros Hrect Hin Hlegal Hpre Hm.
  eapply get_strategic_move_win; [done| |done..].
  rewrite Hlegal in Hin. by apply Forall_app in Hin as [? _].
Qed.

Lemma strategic_move_first_win_witness :
  _get_strategic_move x_to_move_four four_in_row = (Ret (3, 2), four_in_row).
Proof.
  apply (strategic_move_first_win x_to_move_four four_in_row
           (take 26 (empty_cells four_in_row)) (3, 2)
           (drop 27 (empty_cells four_in_row))).
  - apply (bool_decide_unpack _). vm_compute. exact I.
  - apply (bool_decide_unpack _). vm_compute. exact I.
  - vm_compute. reflexivity.
  - apply (bool_decide_unpack _). vm_compute. exact I.
  - vm_compute. reflexivity.
Defined.

(** In that position the cell (2,4) scores 11 and the winning cell (3,2)
    scores 7: the win is taken over a move the scorer rates higher. *)
Example win_over_higher_score :
  scores four_in_row (2, 4) X 11 ∧ scores four_in_row (3, 2) X 7 ∧
  (2, 4) ∈ get_legal_moves x_to_move_four.
Proof.
  split; [|split]; [vm_compute; reflexivity..|].
  apply (bool_decide_unpack _). vm_compute. exact I.
Qed.

(** C3. On a rectangular board with legal moves on the board, when no
    legal move wins for the player to move and some legal move would win
    for the opponent, the selector returns the first such move of the
    list, and leaves the board as it was. *)
Theorem strategic_move_first_block game_state board pre m post :
  rectangular board →
  Forall (in_bounds board) (get_legal_moves game_state) →
  Forall (fun x => ¬ wins board x (current_player game_state))
    (get_legal_moves game_state) →
  get_legal_moves game_state = pre ++ m :: post →
  Forall (fun x => ¬ wins board x (opponent (current_player game_state))) pre →
  wins board m (opponent (current_player game_state)) →
  _get_strategic_move game_state board = (Ret m, board).
Proof. apply get_strategic_move_block. Qed.

Lemma strategic_move_first_block_witness :
  _get_strategic_move o_to_move_four four_in_row = (Ret (3, 2), four_in_row).
Proof.
  apply (strategic_move_first_block o_to_move_four four_in_row
           (take 26 (empty_cells four_in_row)) (3, 2)
           (drop 27 (empty_cells four_in_row))).
  - apply (bool_decide_unpack _). vm_compute. exact I.
  - apply (bool_decide_unpack _). vm_compute. exact I.
  - apply (bool_decide_unpack _). vm_compute. exact I.
  - vm_compute. reflexivity.
  - apply (bool_decide_unpack _). vm_compute. exact I.
  - vm_compute. reflexivity.
Defined.

(** C7. On a rectangular board with legal moves on the board, when no
    legal move wins for either player and one of (3,3), (3,4), (4,3),
    (4,4) is a legal move, the selector returns the first of these four,
    in this order, that is a legal move. *)
Theorem strategic_move_first_centre game_state board cpre c cpost :
  rectangular board →
  Forall (in_bounds board) (get_legal_moves game_state) →
  Forall (fun x => ¬ wins board x (current_player game_state))
    (get_legal_moves game_state) →
  Forall (fun x => ¬ wins board x (opponent (current_player game_state)))
    (get_legal_moves game_state) →
  [(3, 3); (3, 4); (4, 3); (4, 4)] = cpre ++ c :: cpost →
  Forall (fun x => x ∉ get_legal_moves game_state) cpre →
  c ∈ get_legal_moves game_state →
  _get_strategic_move game_state board = (Ret c, board).
Proof.
  intros Hrect Hin Hme Hopp Hcentre Hpre Hc.
  destruct (get_strategic_move_quiet game_state board Hrect Hin Hme Hopp)
    as (scored & _ & ->).
  unfold center_moves. rewrite Hcentre. rewrite find_first; [done| |].
  - eapply Forall_impl; [exact Hpre|]. intros x Hx. simpl.
    by apply bool_decide_eq_false.
  - by apply bool_decide_eq_true.
Qed.

Lemma strategic_move_first_centre_witness :
  _get_strategic_move opening empty_board = (Ret (3, 3), empty_board).
Proof.
  apply (strategic_move_first_centre opening empty_board
           [] (3, 3) [(3, 4); (4, 3); (4, 4)]).
  - apply (bool_decide_unpack _). vm_compute. exact I.
  - apply (bool_decide_unpack _). vm_compute. exact I.
  - apply (bool_decide_unpack _). vm_compute. exact I.
  - apply (bool_decide_unpack _). vm_compute. exact I.
  - reflexivity.
  - constructor.
  - apply (bool_decide_unpack _). vm_compute. exact I.
Defined.

(** C8. With an empty list of legal moves the selector raises
    [IndexError]. With a non-empty list of cells of a rectangular board
    it returns one move, a member of the list, and leaves the board as it
    was; if the list holds empty cells only, the move is an empty cell of
    the board. *)
Theorem strategic_move_member_or_error game_state board :
  (get_legal_moves game_state = [] →
   (_get_strategic_move game_state board).1 = Raise IndexError) ∧
  (rectangular board →
   Forall (in_bounds board) (get_legal_moves game_state) →
   get_legal_moves game_state ≠ [] →
   ∃ m, _get_strategic_move game_state board = (Ret m, board) ∧
        m ∈ get_legal_moves game_state ∧
        in_bounds board m ∧
        (Forall (empty_at board) (get_legal_moves game_state) →
         empty_at board m)).
Proof.
  split.
  - intros Hempty. rewrite get_strategic_move_unfold, Hempty. done.
  - intros Hrect Hin Hne.
    destruct (get_strategic_move_member game_state board Hrect Hin Hne)
      as (m & Hrun & Hm).
    exists m. split; [done|]. split; [done|].
    rewrite !Forall_forall in *. split; [by apply Hin|].
    intros Hempty. by apply Hempty.
Qed.

Lemma strategic_move_member_or_error_witness :
  (_get_strategic_move {| current_player := X; get_legal_moves := [] |}
     empty_board).1 = Raise IndexError ∧
  ∃ m, _get_strategic_move centre_gone centre_taken = (Ret m, centre_taken) ∧
       m ∈ get_legal_moves centre_gone ∧
       in_bounds centre_taken m ∧
       (Forall (empty_at centre_taken) (get_legal_moves centre_gone) →
        empty_at centre_taken m).
Proof.
  split.
  - apply (proj1 (strategic_move_member_or_error
                    {| current_player := X; get_legal_moves := [] |}
                    empty_board)).
    reflexivity.
  - apply (proj2 (strategic_move_member_or_error centre_gone centre_taken)).
    + apply (bool_decide_unpack _). vm_compute. exact I.
    + apply (bool_decide_unpack _). vm_compute. exact I.
    + vm_compute. discriminate.
Defined.

(** C6, as the code has it. In the last stage (no legal move wins for
    either player, none of the four central cells is legal) the selector
    returns a legal move of greatest score; among the legal moves of that
    score it returns the one with the greatest row, then the greatest
    column, wherever it stands in the list of legal moves. *)
Theorem strategic_move_best_tie game_state board :
  rectangular board →
  Forall (in_bounds board) (get_legal_moves game_state) →
  get_legal_moves game_state ≠ [] →
  Forall (fun x => ¬ wins board x (current_player game_state))
    (get_legal_moves game_state) →
  Forall (fun x => ¬ wins board x (opponent (current_player game_state)))
    (get_legal_moves game_state) →
  Forall (fun c => c ∉ get_legal_moves game_state)
    [(3, 3); (3, 4); (4, 3); (4, 4)] →
  ∃ m s,
    _get_strategic_move game_state board = (Ret m, board) ∧
    m ∈ get_legal_moves game_state ∧
    _evaluate_move board m (current_player game_state) = Ret s ∧
    ∀ m' s', m' ∈ get_legal_moves game_state →
      _evaluate_move board m' (current_player game_state) = Ret s' →
      (s' <= s)%Q ∧
      ((s' == s)%Q → m' = m ∨ m'.1 < m.1 ∨ (m'.1 = m.1 ∧ m'.2 < m.2)).
Proof.
  intros Hrect Hin Hne Hme Hopp Hcentre.
  destruct (get_strategic_move_best game_state board Hrect Hin Hne Hme Hopp)
    as (m & s & Hrun & Hm & Hs & Hmax).
  { apply find_nothing. eapply Forall_impl; [exact Hcentre|].
    intros c Hc. by apply bool_decide_eq_false. }
  exists m, s. repeat (split; [done|]). intros m' s' Hm' Hs'.
  specialize (Hmax m' s' Hm' Hs'). unfold scored_below in Hmax. simpl in Hmax.
  split; [apply Qnot_lt_le; tauto|]. intros Heq.
  assert (¬ (m.1 < m'.1 ∨ m.1 = m'.1 ∧ m.2 < m'.2)) as Hlex.
  { intros H. apply Hmax. right. split; [by symmetry|done]. }
  destruct m as [r c], m' as [r' c']. simpl in *.
  destruct (decide (r' = r ∧ c' = c)) as [[-> ->]|Hne']; [by left|].
  right. lia.
Qed.

Lemma strategic_move_best_tie_witness :
  ∃ m s,
    _get_strategic_move centre_gone centre_taken = (Ret m, centre_taken) ∧
    m ∈ get_legal_moves centre_gone ∧
    _evaluate_move centre_taken m (current_player centre_gone) = Ret s ∧
    ∀ m' s', m' ∈ get_legal_moves centre_gone →
      _evaluate_move centre_taken m' (current_player centre_gone) = Ret s' →
      (s' <= s)%Q ∧
      ((s' == s)%Q → m' = m ∨ m'.1 < m.1 ∨ (m'.1 = m.1 ∧ m'.2 < m.2)).
Proof.
  apply (strategic_move_best_tie centre_gone centre_taken).
  - apply (bool_decide_unpack _). vm_compute. exact I.
  - apply (bool_decide_unpack _). vm_compute. exact I.
  - vm_compute. discriminate.
  - apply (bool_decide_unpack _). vm_compute. exact I.
  - apply (bool_decide_unpack _). vm_compute. exact I.
  - apply (bool_decide_unpack _). vm_compute. exact I.
Defined.

(** C6, as stated, fails. With the four central cells taken and the empty
    cells listed row by row, no move wins for either player and no central
    cell is legal; (2,3) and (5,4) both score 9, no legal move scores
    more, (2,3) stands before (5,4) in the list, and the selector returns
    (5,4). *)
Lemma strategic_move_tie_not_first_listed :
  first_five (get_legal_moves centre_gone) X centre_taken
    = (Ret None, centre_taken) ∧
  first_five (get_legal_moves centre_gone) O centre_taken
    = (Ret None, centre_taken) ∧
  find (fun move => bool_decide (move ∈ get_legal_moves centre_gone))
    center_moves = None ∧
  get_legal_moves centre_gone !! 19%nat = Some (2, 3) ∧
  get_legal_moves centre_gone !! 40%nat = Some (5, 4) ∧
  scores centre_taken (2, 3) X 9 ∧
  scores centre_taken (5, 4) X 9 ∧
  none_above centre_taken X 9 (get_legal_moves centre_gone) = true ∧
  (_get_strategic_move centre_gone centre_taken).1 = Ret (5, 4).
Proof. repeat split; vm_compute; reflexivity. Qed.

(** * Further properties of the engine *)

(** ** The detector at and beyond the edges of the board *)

Lemma py_index_Some n i :
  - Z.of_nat n <= i < Z.of_nat n → ∃ k, py_index n i = Some k.
Proof.
  intros Hi. unfold py_index.
  destruct (Z.leb_spec 0 i).
  - destruct (Z.ltb_spec i (Z.of_nat n)); [eauto|lia].
  - destruct (Z.leb_spec (- Z.of_nat n) i); [eauto|lia].
Qed.

Lemma py_index_None n i :
  i < - Z.of_nat n ∨ Z.of_nat n <= i → py_index n i = None.
Proof.
  intros Hi. unfold py_index.
  destruct (Z.leb_spec 0 i).
  - destruct (Z.ltb_spec i (Z.of_nat n)); [lia|done].
  - destruct (Z.leb_spec (- Z.of_nat n) i); [lia|done].
Qed.

(** Which subscripted reads succeed on a rectangular board. *)
Lemma board_get_range board row col :
  rectangular board →
  if decide (- rows board <= row < rows board ∧
             - cols board <= col < cols board)
  then ∃ x, board_get board row col = Ret x
  else board_get board row col = Raise IndexError.
Proof.
  intros Hrect. unfold board_get, getitem. fold (len board) in *.
  destruct (decide _) as [[Hr Hc]|Hout].
  - destruct (py_index_Some (length board) row Hr) as [k Hk].
    rewrite Hk. pose proof (py_index_lt _ _ _ Hk) as Hlt.
    destruct (board !! k) as [line|] eqn:Hline.
    2: { apply lookup_ge_None in Hline. lia. }
    simpl. pose proof (rectangular_lookup _ _ _ Hrect Hline) as Hlen.
    unfold len in Hlen.
    destruct (py_index_Some (length line) col) as [j Hj]; [lia|].
    rewrite Hj. pose proof (py_index_lt _ _ _ Hj) as Hjlt.
    destruct (line !! j) as [x|] eqn:Hx; [eauto|].
    apply lookup_ge_None in Hx. lia.
  - destruct (py_index (length board) row) as [k|] eqn:Hk; [|done].
    destruct (board !! k) as [line|] eqn:Hline; [|done].
    simpl. pose proof (rectangular_lookup _ _ _ Hrect Hline) as Hlen.
    unfold len in Hlen. rewrite py_index_None; [done|].
    destruct (decide (- rows board <= row < rows board)) as [Hr|Hr].
    + lia.
    + exfalso. apply Hr. unfold rows, len.
      unfold py_index in Hk.
      destruct (Z.leb_spec 0 row).
      * destruct (Z.ltb_spec row (Z.of_nat (length board))); [lia|done].
      * destruct (Z.leb_spec (- Z.of_nat (length board)) row); [lia|done].
Qed.

(** X1. On a rectangular board of [rows] by [cols] cells the detector
    accepts exactly the subscripts Python accepts: for
    [-rows <= row < rows] and [-cols <= col < cols] it returns a boolean,
    for any other move it raises [IndexError]; in both cases the board is
    left as it was. *)
Theorem creates_five_in_row_subscripts board row col player :
  rectangular board →
  (- rows board <= row < rows board ∧ - cols board <= col < cols board →
   ∃ five, _creates_five_in_row (row, col) player board = (Ret five, board)) ∧
  (¬ (- rows board <= row < rows board ∧ - cols board <= col < cols board) →
   _creates_five_in_row (row, col) player board = (Raise IndexError, board)).
Proof.
  intros Hrect.
  pose proof (board_get_range board row col Hrect) as Hget.
  pose proof (creates_five_in_row_run (row, col) player board Hrect) as Hrun.
  simpl in Hrun. destruct (decide _) as [Hin|Hout].
  - split; [intros _|done].
    destruct Hget as [x Hx]. rewrite Hx in Hrun. destruct x as [stone|].
    + eauto.
    + destruct Hrun as (board1 & five & _ & _ & Hfive & _). eauto.
  - split; [done|intros _]. by rewrite Hget in Hrun.
Qed.

Lemma creates_five_in_row_subscripts_witness :
  (∃ five, _creates_five_in_row (-1, -8) X four_in_row
           = (Ret five, four_in_row)) ∧
  _creates_five_in_row (8, 0) X four_in_row = (Raise IndexError, four_in_row).
Proof.
  split.
  - apply (proj1 (creates_five_in_row_subscripts four_in_row (-1) (-8) X
                    ltac:(apply (bool_decide_unpack _); vm_compute; exact I))).
    change (rows four_in_row) with 8. change (cols four_in_row) with 8. lia.
  - apply (proj2 (creates_five_in_row_subscripts four_in_row 8 0 X
                    ltac:(apply (bool_decide_unpack _); vm_compute; exact I))).
    change (rows four_in_row) with 8. change (cols four_in_row) with 8. lia.
Defined.

(** ** What a [True] answer says about the board *)

Lemma owned_place_inv board m player r c :
  owned (place board m player) player r c →
  (r, c) = m ∨ owned board player r c.
Proof.
  intros Hown. destruct (decide ((r, c) = m)) as [|Hne]; [by left|right].
  unfold owned in *. by rewrite cell_at_place_other in Hown.
Qed.

Lemma creates_five_in_row_stone board m player stone :
  cell_at board m.1 m.2 = Some (Some stone) →
  _creates_five_in_row m player board = (Ret false, board).
Proof.
  intros Hcell%cell_at_board_get. destruct m as [row col]. simpl in *.
  unfold _creates_five_in_row, load, mbind, M_bind, reading.
  by rewrite Hcell.
Qed.

(** The answer for an empty cell, by the runs of the board with the stone. *)
Lemma creates_five_in_row_empty board m player :
  rectangular board → in_bounds board m → empty_at board m →
  ∃ five, _creates_five_in_row m player board = (Ret five, board) ∧
          (five = true ↔ makes_five board m player).
Proof.
  intros Hrect Hb Hempty.
  pose proof (creates_five_in_row_run m player board Hrect) as Hrun.
  rewrite (cell_at_board_get _ _ _ _ Hempty) in Hrun.
  destruct Hrun as (board1 & five & Hset & Hrect1 & Hrun & Hiff).
  rewrite board_set_place in Hset by done. injection Hset as <-.
  exists five. split; [done|]. rewrite Hiff. unfold makes_five.
  split.
  - intros (d & Hd & Hax). exists d.
    apply axis_five_run in Hax as (lo & hi & Hlohi);
      [|done..|by apply owned_place].
    exists lo, hi. tauto.
  - intros (d & lo & hi & Hd & Hlohi). exists d. split; [done|].
    apply axis_five_run; [done..|by apply owned_place|eauto].
Qed.

(** A [True] answer needs an empty cell and a run of five through it. *)
Lemma creates_five_in_row_sound_aux board m player :
  rectangular board → in_bounds board m → wins board m player →
  empty_at board m ∧ makes_five board m player.
Proof.
  intros Hrect Hb Hwin.
  assert (empty_at board m) as Hempty.
  { destruct (in_bounds_cell_at _ _ Hrect Hb) as [[stone|] Hx]; [|done].
    unfold wins in Hwin.
    by rewrite (creates_five_in_row_stone _ _ player _ Hx) in Hwin. }
  split; [done|].
  destruct (creates_five_in_row_empty board m player Hrect Hb Hempty)
    as (five & Hfive & Hiff).
  unfold wins in Hwin. rewrite Hfive in Hwin. injection Hwin as ->.
  by apply Hiff.
Qed.

(** X2. On a rectangular board, when the detector answers [True] for a
    cell of the board, that cell is empty and, along one of the four axes,
    it lies in a stretch of at least five cells all the others of which
    already hold stones of the player. *)
Theorem creates_five_in_row_sound board m player :
  rectangular board → in_bounds board m → wins board m player →
  empty_at board m ∧
  ∃ d lo hi, d ∈ directions ∧ lo <= 0 <= hi ∧ 5 <= hi - lo + 1 ∧
    ∀ i, lo <= i <= hi → i ≠ 0 →
      owned board player (m.1 + i * d.1) (m.2 + i * d.2).
Proof.
  intros Hrect Hb Hwin.
  destruct (creates_five_in_row_sound_aux board m player Hrect Hb Hwin)
    as (Hempty & d & lo & hi & Hd & [Hlohi Hrun] & Hlen).
  split; [done|].
  exists d, lo, hi. repeat (split; [done|]). intros i Hi Hi0.
  destruct (owned_place_inv _ _ _ _ _ (Hrun i Hi)) as [Heq|Hown]; [|done].
  exfalso. destruct m as [row col], d as [dr dc]. simpl in *.
  destruct (directions_unit_step _ _ Hd) as [(Hdr & Hdc & Hnz) _].
  injection Heq as Hr Hc. nia.
Qed.

Lemma creates_five_in_row_sound_witness :
  empty_at four_in_row (3, 7) ∧
  ∃ d lo hi, d ∈ directions ∧ lo <= 0 <= hi ∧ 5 <= hi - lo + 1 ∧
    ∀ i, lo <= i <= hi → i ≠ 0 →
      owned four_in_row X ((3, 7).1 + i * d.1) ((3, 7).2 + i * d.2).
Proof.
  apply (creates_five_in_row_sound four_in_row (3, 7) X).
  - apply (bool_decide_unpack _). vm_compute. exact I.
  - apply (bool_decide_unpack _). vm_compute. exact I.
  - vm_compute. reflexivity.
Defined.

(** X3. More stones of the player never lose a win: if every stone the
    player has on one rectangular board is also on another, and the cell
    is empty on both, a [True] answer on the first is a [True] answer on
    the second. *)
Theorem creates_five_in_row_monotone board board' m player :
  rectangular board → rectangular board' →
  in_bounds board m → in_bounds board' m →
  empty_at board' m →
  (∀ r c, owned board player r c → owned board' player r c) →
  wins board m player → wins board' m player.
Proof.
  intros Hrect Hrect' Hb Hb' Hempty' Hsub Hwin.
  destruct (creates_five_in_row_sound_aux board m player Hrect Hb Hwin)
    as (Hempty & Hfive).
  destruct (creates_five_in_row_empty board' m player Hrect' Hb' Hempty')
    as (five' & Hrun' & Hiff').
  unfold wins. rewrite Hrun'. simpl. f_equal. apply Hiff'.
  destruct Hfive as (d & lo & hi & Hd & [Hlohi Hrun] & Hlen).
  exists d, lo, hi. split; [done|]. split; [|done]. split; [done|].
  intros i Hi.
  destruct (decide ((m.1 + i * d.1, m.2 + i * d.2) = m)) as [Heq|Hne].
  - pose proof (f_equal fst Heq) as Hr. pose proof (f_equal snd Heq) as Hc.
    simpl in Hr, Hc. rewrite Hr, Hc. by apply owned_place.
  - destruct (owned_place_inv _ _ _ _ _ (Hrun i Hi)) as [Heq|Hown]; [done|].
    unfold owned. rewrite cell_at_place_other by done. by apply Hsub.
Qed.

Lemma creates_five_in_row_monotone_witness :
  wins (place four_in_row (0, 0) X) (3, 2) X.
Proof.
  apply (creates_five_in_row_monotone four_in_row
           (place four_in_row (0, 0) X) (3, 2) X).
  - apply (bool_decide_unpack _). vm_compute. exact I.
  - apply (bool_decide_unpack _). vm_compute. exact I.
  - apply (bool_decide_unpack _). vm_compute. exact I.
  - apply (bool_decide_unpack _). vm_compute. exact I.
  - vm_compute. reflexivity.
  - intros r c Hown.
    destruct (decide ((r, c) = (0, 0))) as [Heq|Hne].
    + injection Heq as -> ->. vm_compute in Hown. discriminate.
    + unfold owned. by rewrite cell_at_place_other.
  - vm_compute. reflexivity.
Defined.

(** ** The range of the scorer *)






(** ** The selector hands the board back *)

Lemma keeps_board_ret {A} (a : A) : keeps_board (mret a).
Proof. intros board _. done. Qed.

Lemma keeps_board_bind {A B} (m : M A) (k : A → M B) :
  keeps_board m → (∀ a, keeps_board (k a)) → keeps_board (m ≫= k).
Proof.
  intros Hm Hk board Hrect. destruct (Hm board Hrect) as [Hfuel Hboard].
  unfold mbind, M_bind. destruct (m board) as [[a|e|] board'] eqn:Hrun;
    simpl in *; subst; [by apply Hk|done|done].
Qed.

Lemma keeps_board_reading {A} (f : Board → result A) :
  (∀ board, rectangular board → f board ≠ OutOfFuel) →
  keeps_board (reading f).
Proof. intros Hf board Hrect. split; [by apply Hf|done]. Qed.

Lemma keeps_board_creates_five_in_row m player :
  keeps_board (_creates_five_in_row m player).
Proof.
  intros board Hrect.
  split; [|by apply creates_five_in_row_board].
  pose proof (creates_five_in_row_run m player board Hrect) as Hrun.
  destruct (board_get board m.1 m.2) as [[stone|]| |] eqn:Hget.
  - by rewrite Hrun.
  - by destruct Hrun as (board1 & five & _ & _ & -> & _).
  - by rewrite Hrun.
  - unfold board_get, getitem in Hget.
    repeat (case_match; simplify_eq; simpl in * ).
Qed.

Lemma keeps_board_first_five moves player :
  keeps_board (first_five moves player).
Proof.
  induction moves as [|move rest IH]; [apply keeps_board_ret|].
  rewrite first_five_cons. apply keeps_board_bind.
  - apply keeps_board_creates_five_in_row.
  - intros [|]; [apply keeps_board_ret|done].
Qed.

Lemma getitem_fuel {A} (l : list A) i : getitem l i ≠ OutOfFuel.
Proof. unfold getitem. by repeat case_match. Qed.

Lemma keeps_board_get_strategic_move game_state :
  keeps_board (_get_strategic_move game_state).
Proof.
  rewrite get_strategic_move_unfold. apply keeps_board_bind.
  { apply keeps_board_first_five. }
  intros [move|]; [apply keeps_board_ret|]. apply keeps_board_bind.
  { apply keeps_board_first_five. }
  intros [move|]; [apply keeps_board_ret|].
  destruct (find _ center_moves) as [c|]; [apply keeps_board_ret|].
  apply keeps_board_bind.
  { apply keeps_board_reading. intros board Hrect.
    destruct (score_moves_run board (current_player game_state)
                (get_legal_moves game_state) [] Hrect) as (scored & -> & _).
    done. }
  intros scored. apply keeps_board_bind.
  { apply keeps_board_reading. intros. apply getitem_fuel. }
  intros best. apply keeps_board_ret.
Qed.

(** X5. On a rectangular board, whatever the list of legal moves (cells
    off the board and occupied cells included), the selector ends, by
    returning a move or by raising, and the board afterwards is the board
    before: every probe of the detector has been undone. *)
Theorem strategic_move_restores_board game_state board :
  rectangular board →
  (_get_strategic_move game_state board).1 ≠ OutOfFuel ∧
  (_get_strategic_move game_state board).2 = board.
Proof. apply keeps_board_get_strategic_move. Qed.

Lemma strategic_move_restores_board_witness :
  (_get_strategic_move
     {| current_player := O; get_legal_moves := [(3, 3); (0, 0); (9, 9)] |}
     four_in_row).1 ≠ OutOfFuel ∧
  (_get_strategic_move
     {| current_player := O; get_legal_moves := [(3, 3); (0, 0); (9, 9)] |}
     four_in_row).2 = four_in_row.
Proof.
  apply strategic_move_restores_board.
  apply (bool_decide_unpack _). vm_compute. exact I.
Defined.

(** ** The order of the legal moves *)

Lemma scored_below_total s m s' m' :
  ¬ scored_below (s, m) (s', m') → ¬ scored_below (s', m') (s, m) → m = m'.
Proof.
  unfold scored_below. simpl. intros H1 H2.
  assert (s == s')%Q as Heq.
  { apply Qle_antisym; apply Qnot_lt_le; tauto. }
  assert (¬ (m.1 < m'.1 ∨ m.1 = m'.1 ∧ m.2 < m'.2)) by tauto.
  assert (¬ (m'.1 < m.1 ∨ m'.1 = m.1 ∧ m'.2 < m.2)).
  { intros H'. apply H2. right. split; [by symmetry|done]. }
  destruct m, m'. simpl in *. f_equal; lia.
Qed.

Lemma find_same {A} (f g : A → bool) l :
  (∀ x, f x = g x) → find f l = find g l.
Proof.
  intros Hfg. induction l as [|x l IH]; simpl; [done|].
  by rewrite Hfg, IH.
Qed.

(** X6. When no legal move wins for either player, the move chosen does
    not depend on the order in which the legal moves are listed, nor on
    repetitions: two lists with the same members give the same result on
    the same rectangular board. *)
Theorem strategic_move_order_independent game_state game_state' board :
  rectangular board →
  current_player game_state = current_player game_state' →
  (∀ x, x ∈ get_legal_moves game_state ↔ x ∈ get_legal_moves game_state') →
  Forall (in_bounds board) (get_legal_moves game_state) →
  Forall (fun x => ¬ wins board x (current_player game_state))
    (get_legal_moves game_state) →
  Forall (fun x => ¬ wins board x (opponent (current_player game_state)))
    (get_legal_moves game_state) →
  _get_strategic_move game_state board = _get_strategic_move game_state' board.
Proof.
  intros Hrect Hplayer Hsame Hin Hme Hopp.
  assert (Forall (in_bounds board) (get_legal_moves game_state')) as Hin'.
  { rewrite Forall_forall in *. intros x Hx. by apply Hin, Hsame. }
  assert (Forall (fun x => ¬ wins board x (current_player game_state'))
            (get_legal_moves game_state')) as Hme'.
  { rewrite <- Hplayer. rewrite Forall_forall in *.
    intros x Hx. by apply Hme, Hsame. }
  assert (Forall (fun x => ¬ wins board x
                              (opponent (current_player game_state')))
            (get_legal_moves game_state')) as Hopp'.
  { rewrite <- Hplayer. rewrite Forall_forall in *.
    intros x Hx. by apply Hopp, Hsame. }
  assert (find (fun move => bool_decide (move ∈ get_legal_moves game_state))
            center_moves
          = find (fun move => bool_decide (move ∈ get_legal_moves game_state'))
              center_moves) as Hfind.
  { apply find_same. intros x. apply bool_decide_ext, Hsame. }
  destruct (find (fun move => bool_decide (move ∈ get_legal_moves game_state'))
              center_moves) as [c|] eqn:Hcentre.
  - destruct (get_strategic_move_quiet game_state board Hrect Hin Hme Hopp)
      as (scored & _ & ->).
    destruct (get_strategic_move_quiet game_state' board Hrect Hin' Hme' Hopp')
      as (scored' & _ & ->).
    by rewrite Hfind, Hcentre.
  - destruct (decide (get_legal_moves game_state = [])) as [Hnil|Hne].
    + assert (get_legal_moves game_state' = []) as Hnil'.
      { destruct (get_legal_moves game_state') as [|x l] eqn:Hl; [done|].
        assert (x ∈ get_legal_moves game_state) as Hx by (apply Hsame; left).
        rewrite Hnil in Hx. by apply elem_of_nil in Hx. }
      rewrite !get_strategic_move_unfold, Hnil, Hnil'. done.
    + assert (get_legal_moves game_state' ≠ []) as Hne'.
      { intros Hnil'. destruct (get_legal_moves game_state) as [|x l] eqn:Hl;
          [done|].
        assert (x ∈ get_legal_moves game_state') as Hx by (apply Hsame; left).
        rewrite Hnil' in Hx. by apply elem_of_nil in Hx. }
      destruct (get_strategic_move_best game_state board Hrect Hin Hne Hme
                  Hopp Hfind) as (m & s & -> & Hm & Hs & Hmax).
      destruct (get_strategic_move_best game_state' board Hrect Hin' Hne' Hme'
                  Hopp' Hcentre) as (m' & s' & -> & Hm' & Hs' & Hmax').
      rewrite <- Hplayer in Hs', Hmax'.
      f_equal. f_equal. apply (scored_below_total s m s' m').
      * apply Hmax; [by apply Hsame|done].
      * apply Hmax'; [by apply Hsame|done].
Qed.

Lemma strategic_move_order_independent_witness :
  _get_strategic_move centre_gone centre_taken =
  _get_strategic_move
    {| current_player := X;
       get_legal_moves := reverse (empty_cells centre_taken) |}
    centre_taken.
Proof.
  apply strategic_move_order_independent.
  - apply (bool_decide_unpack _). vm_compute. exact I.
  - reflexivity.
  - intros x. simpl. by rewrite elem_of_reverse.
  - apply (bool_decide_unpack _). vm_compute. exact I.
  - apply (bool_decide_unpack _). vm_compute. exact I.
  - apply (bool_decide_unpack _). vm_compute. exact I.
Defined.

(** ** The sequence counter *)

Lemma run_of_ray_length board player n r c d :
  run_of board player n (r, c, d) ↔
  0 <= n ∧ ray_length board player d.1 d.2 r c (Z.to_nat n).
Proof.
  unfold run_of, ray_length. simpl. rewrite Forall_forall. split.
  - intros (Hn & Hall & Hstop). split; [done|]. rewrite Z2Nat.id by done.
    split; [|done]. intros i Hi. apply Hall, elem_of_seqZ. lia.
  - intros (Hn & Hall & Hstop). rewrite Z2Nat.id in * by done.
    split; [done|]. split; [|done].
    intros i Hi%elem_of_seqZ. apply Hall. lia.
Qed.

Lemma count_at_cons dr dc rest board player n row col count :
  count_at ((dr, dc) :: rest) board player n row col count =
    (sequence ← count_ray (ray_fuel board) board player dr dc row col 0;
     count_at rest board player n row col
       (if sequence =? n then count + 1 else count)).
Proof. done. Qed.

Lemma count_at_run board player n row col dirs count :
  rectangular board →
  (∀ d, d ∈ dirs → d ∈ directions) →
  count_at dirs board player n row col count =
    Ret (count + Z.of_nat (length
      (filter (run_of board player n) ((fun d => (row, col, d)) <$> dirs)))).
Proof.
  intros Hrect. revert count.
  induction dirs as [|[dr dc] dirs IH]; intros count Hdirs.
  - simpl. f_equal. lia.
  - destruct (directions_unit_step dr dc) as [Hstep _].
    { apply Hdirs. left. }
    destruct (count_ray_total board player dr dc row col 0 Hrect Hstep)
      as (k & Hk & Hlen).
    rewrite Z.add_0_l in Hk. rewrite count_at_cons, Hk. simpl mbind. unfold mbind, result_bind.
    rewrite IH by (intros d Hd; apply Hdirs; by right).
    f_equal. rewrite fmap_cons, filter_cons.
    destruct (Z.eqb_spec (Z.of_nat k) n) as [Heq|Hne].
    + rewrite decide_True; [simpl length; lia|].
      apply run_of_ray_length. simpl. split; [lia|].
      by rewrite <- Heq, Nat2Z.id.
    + rewrite decide_False; [lia|].
      intros (Hn & Hrun)%run_of_ray_length. simpl in Hrun.
      pose proof (ray_length_unique _ _ _ _ _ _ _ _ Hlen Hrun). lia.
Qed.

Lemma count_in_row_cons col rest board player n row count :
  count_in_row (col :: rest) board player n row count =
    (count' ← count_at directions board player n row col count;
     count_in_row rest board player n row count').
Proof. done. Qed.

Lemma count_in_rows_cons row rest board player n count :
  count_in_rows (row :: rest) board player n count =
    (row0 ← getitem board 0;
     count' ← count_in_row (seqZ 0 (len row0)) board player n row count;
     count_in_rows rest board player n count').
Proof. done. Qed.

Lemma count_in_row_run board player n row cs count :
  rectangular board →
  count_in_row cs board player n row count =
    Ret (count + Z.of_nat (length
      (filter (run_of board player n) (scan_starts [row] cs)))).
Proof.
  intros Hrect. revert count. unfold scan_starts.
  induction cs as [|c cs IH]; intros count.
  - simpl. f_equal. lia.
  - rewrite count_in_row_cons, count_at_run by done.
    unfold mbind at 1, result_bind at 1. rewrite IH.
    f_equal. rewrite !bind_singleton, bind_cons, filter_app, length_app.
    replace (directions ≫= λ d, [(row, c, d)])
      with ((fun d => (row, c, d)) <$> directions) by done.
    lia.
Qed.

Lemma count_in_rows_run board player n rs count :
  rectangular board →
  (∀ r, r ∈ rs → 0 <= r < rows board) →
  count_in_rows rs board player n count =
    Ret (count + Z.of_nat (length
      (filter (run_of board player n)
         (scan_starts rs (seqZ 0 (cols board)))))).
Proof.
  intros Hrect. revert count. unfold scan_starts.
  induction rs as [|r rs IH]; intros count Hrs.
  - simpl. f_equal. lia.
  - rewrite count_in_rows_cons, head_row.
    2: { assert (0 <= r < rows board) by (apply Hrs; left). lia. }
    unfold mbind at 1, result_bind at 1.
    fold (cols board). rewrite count_in_row_run by done.
    unfold mbind at 1, result_bind at 1.
    rewrite IH by (intros r' Hr'; apply Hrs; by right).
    f_equal. unfold scan_starts.
    rewrite (bind_cons _ r rs), filter_app, length_app.
    rewrite bind_singleton. lia.
Qed.

(** The counter as a whole. *)
Lemma count_sequences_run board player n :
  rectangular board →
  _count_sequences board player n =
    Ret (Z.of_nat (length
      (filter (run_of board player n)
         (scan_starts (seqZ 0 (rows board)) (seqZ 0 (cols board)))))).
Proof.
  intros Hrect. unfold _count_sequences. fold (rows board).
  rewrite count_in_rows_run; [done..|].
  intros r Hr%elem_of_seqZ. lia.
Qed.

Lemma length_scan_starts rs cs :
  length (scan_starts rs cs) = (length rs * length cs * 4)%nat.
Proof.
  unfold scan_starts. induction rs as [|r rs IH]; [done|].
  rewrite bind_cons, length_app, IH.
  assert (length (cs ≫= λ c, directions ≫= λ d, [(r, c, d)])
          = (length cs * 4)%nat) as ->.
  { clear. induction cs as [|c cs IH]; [done|].
    rewrite bind_cons, length_app, IH. simpl. lia. }
  simpl. lia.
Qed.

Lemma elem_of_scan_starts rs cs r c d :
  (r, c, d) ∈ scan_starts rs cs ↔ r ∈ rs ∧ c ∈ cs ∧ d ∈ directions.
Proof.
  unfold scan_starts. rewrite list_elem_of_bind. split.
  - intros (r' & (c' & (d' & Heq & Hd)%list_elem_of_bind & Hc)%list_elem_of_bind
            & Hr).
    apply list_elem_of_singleton in Heq. by simplify_eq.
  - intros (Hr & Hc & Hd). exists r. split; [|done].
    apply list_elem_of_bind. exists c. split; [|done].
    apply list_elem_of_bind. exists d. split; [|done].
    by apply list_elem_of_singleton.
Qed.

(** X7. On a rectangular board the counter never raises. Its result is
    the number of pairs of a cell of the board and one of the four
    directions from which, scanning forward only, exactly [length] stones
    of the player are met before the first other cell or the edge; it lies
    between 0 and four times the number of cells. *)
Theorem count_sequences_counts board player n :
  rectangular board →
  ∃ k, _count_sequences board player n = Ret k ∧
       k = Z.of_nat (length (filter (run_of board player n)
             (scan_starts (seqZ 0 (rows board)) (seqZ 0 (cols board))))) ∧
       0 <= k <= 4 * rows board * cols board.
Proof.
  intros Hrect. eexists. split; [by apply count_sequences_run|].
  split; [done|].
  pose proof (length_filter (run_of board player n)
    (scan_starts (seqZ 0 (rows board)) (seqZ 0 (cols board)))) as Hle.
  rewrite length_scan_starts, !length_seqZ in Hle.
  unfold rows, cols, len in *. nia.
Qed.

Lemma count_sequences_counts_witness :
  ∃ k, _count_sequences four_in_row X 1 = Ret k ∧
       k = Z.of_nat (length (filter (run_of four_in_row X 1)
             (scan_starts (seqZ 0 (rows four_in_row))
                (seqZ 0 (cols four_in_row))))) ∧
       0 <= k <= 4 * rows four_in_row * cols four_in_row.
Proof.
  apply (count_sequences_counts four_in_row X 1).
  apply (bool_decide_unpack _). vm_compute. exact I.
Defined.

(** X8. A run is counted at every length up to its own: if from a cell,
    along one of the four directions, exactly [L] stones of the player
    run forward, then for every [k] from 1 to [L] the counter, asked for
    length [k], returns at least 1 (the scan that starts [L - k] cells
    further along the run meets exactly [k] stones). *)
Theorem count_sequences_sub_runs board player r c d L k :
  rectangular board → d ∈ directions →
  run_of board player L (r, c, d) →
  1 <= k <= L →
  ∃ n, _count_sequences board player k = Ret n ∧ 1 <= n.
Proof.
  intros Hrect Hd (HL & Hall & Hstop) Hk. simpl in *.
  rewrite Forall_forall in Hall.
  rewrite count_sequences_run by done. eexists. split; [done|].
  set (t := (r + (L - k) * d.1, c + (L - k) * d.2, d)).
  assert (t ∈ filter (run_of board player k)
            (scan_starts (seqZ 0 (rows board)) (seqZ 0 (cols board)))) as Ht.
  { apply list_elem_of_filter. split.
    - unfold run_of, t. simpl. split; [lia|]. split.
      + apply Forall_forall. intros i Hi%elem_of_seqZ.
        replace (r + (L - k) * d.1 + i * d.1) with (r + (L - k + i) * d.1)
          by lia.
        replace (c + (L - k) * d.2 + i * d.2) with (c + (L - k + i) * d.2)
          by lia.
        apply Hall, elem_of_seqZ. lia.
      + replace (r + (L - k) * d.1 + k * d.1) with (r + L * d.1) by lia.
        by replace (c + (L - k) * d.2 + k * d.2) with (c + L * d.2) by lia.
    - apply elem_of_scan_starts.
      assert (owned board player (r + (L - k) * d.1) (c + (L - k) * d.2))
        as Hown by (apply Hall, elem_of_seqZ; lia).
      destruct (owned_in_bounds _ _ _ _ Hrect Hown) as [Hr Hc]. simpl in *.
      split; [apply elem_of_seqZ; lia|].
      split; [apply elem_of_seqZ; lia|done]. }
  destruct (filter _ _) as [|t' l]; [by apply elem_of_nil in Ht|].
  simpl length. lia.
Qed.

Lemma count_sequences_sub_runs_witness :
  ∃ n, _count_sequences four_in_row X 3 = Ret n ∧ 1 <= n.
Proof.
  apply (count_sequences_sub_runs four_in_row X 3 3 (0, 1) 4 3).
  - apply (bool_decide_unpack _). vm_compute. exact I.
  - apply (bool_decide_unpack _). vm_compute. exact I.
  - apply (bool_decide_unpack _). vm_compute. exact I.
  - lia.
Defined.

(** X9. No run is longer than the board or shorter than nothing: on a
    rectangular board, asked for a length below 0 or above both the number
    of rows and the number of columns, the counter returns 0. *)
Theorem count_sequences_out_of_range board player n :
  rectangular board →
  n < 0 ∨ Z.max (rows board) (cols board) < n →
  _count_sequences board player n = Ret 0.
Proof.
  intros Hrect Hn. rewrite count_sequences_run by done.
  assert (filter (run_of board player n)
            (scan_starts (seqZ 0 (rows board)) (seqZ 0 (cols board))) = [])
    as ->; [|done].
  apply elem_of_nil_inv.
  intros [[r c] [dr dc]] [(Hn0 & Hall & _) Ht]%list_elem_of_filter.
  apply elem_of_scan_starts in Ht as (_ & _ & Hd).
  destruct (directions_unit_step _ _ Hd) as [(Hdr & Hdc & Hnz) _].
  simpl in *. rewrite Forall_forall in Hall.
  destruct Hn as [Hn|Hn]; [lia|].
  assert (0 <= rows board ∧ 0 <= cols board) as [? ?]
    by (unfold rows, cols, len; lia).
  assert (owned board player (r + 0 * dr) (c + 0 * dc)) as Hfirst
    by (apply Hall, elem_of_seqZ; lia).
  assert (owned board player (r + (n - 1) * dr) (c + (n - 1) * dc)) as Hlast
    by (apply Hall, elem_of_seqZ; lia).
  destruct (owned_in_bounds _ _ _ _ Hrect Hfirst) as [Hr0 Hc0].
  destruct (owned_in_bounds _ _ _ _ Hrect Hlast) as [Hr1 Hc1].
  simpl in *. lia.
Qed.

Lemma count_sequences_out_of_range_witness :
  _count_sequences four_in_row X 9 = Ret 0.
Proof.
  apply count_sequences_out_of_range.
  - apply (bool_decide_unpack _). vm_compute. exact I.
  - right. vm_compute. reflexivity.
Defined.

(** ** The board as text *)

#[local] Arguments String.append : simpl nomatch.

Lemma string_app_assoc (s1 s2 s3 : string) :
  (s1 +:+ s2) +:+ s3 = s1 +:+ (s2 +:+ s3).
Proof. induction s1 as [|a s1 IH]; simpl; [done|]. by f_equal. Qed.

Lemma string_app_nil_r (s : string) : s +:+ "" = s.
Proof. induction s as [|a s IH]; simpl; [done|]. by f_equal. Qed.

Lemma show_cells_cons j rest board i out :
  show_cells (j :: rest) board i out =
    (x ← board_get board i j; show_cells rest board i (out +:+ cell_text x)).
Proof. done. Qed.

Lemma show_rows_cons i rest board out :
  show_rows (i :: rest) board out =
    (line ← getitem board i;
     out' ← show_cells (seqZ 0 (len line)) board i (out +:+ (pretty i +:+ " "));
     show_rows rest board (out' +:+ nl)).
Proof. done. Qed.

Lemma board_get_lookup (board : Board) i j line x :
  board !! i = Some line → line !! j = Some x →
  board_get board (Z.of_nat i) (Z.of_nat j) = Ret x.
Proof.
  intros Hline Hx. unfold board_get.
  destruct (getitem_in_range board (Z.of_nat i)) as (line' & Hl' & ->).
  { apply lookup_lt_Some in Hline. unfold len. lia. }
  rewrite Nat2Z.id in Hl'. simplify_eq. simpl.
  destruct (getitem_in_range line (Z.of_nat j)) as (x' & Hx' & ->).
  { apply lookup_lt_Some in Hx. unfold len. lia. }
  rewrite Nat2Z.id in Hx'. by simplify_eq.
Qed.

(** The inner loop, started at column [length pre], writes the rest of
    the row. *)
Lemma show_cells_run (board : Board) i pre suf out :
  board !! i = Some (pre ++ suf) →
  show_cells (seqZ (Z.of_nat (length pre)) (Z.of_nat (length suf)))
    board (Z.of_nat i) out
  = Ret (out +:+ cells_then suf "").
Proof.
  revert pre out. induction suf as [|x suf IH]; intros pre out Hline.
  - simpl. by rewrite string_app_nil_r.
  - rewrite seqZ_cons by (simpl; lia). rewrite show_cells_cons.
    rewrite (board_get_lookup board i (length pre) (pre ++ x :: suf) x Hline)
      by (by rewrite lookup_app_r, Nat.sub_diag by done).
    simpl mbind. unfold mbind, result_bind.
    replace (Z.succ (Z.of_nat (length pre)))
      with (Z.of_nat (length (pre ++ [x]))) by (rewrite length_app; simpl; lia).
    replace (Z.pred (Z.of_nat (S (length suf))))
      with (Z.of_nat (length suf)) by lia.
    rewrite IH by (by rewrite <- app_assoc).
    simpl. by rewrite string_app_assoc.
Qed.

Lemma cells_then_app line rest :
  cells_then line rest = cells_then line "" +:+ rest.
Proof.
  induction line as [|x line IH]; simpl; [done|].
  by rewrite IH, string_app_assoc.
Qed.

Lemma rows_text_cons i line rest :
  rows_text i (line :: rest) =
    pretty i +:+ " " +:+ cells_then line (nl +:+ rows_text (i + 1) rest).
Proof. done. Qed.

(** The outer loop, started at row [length above], writes the rows below. *)
Lemma show_rows_run (above below : Board) out :
  show_rows (seqZ (Z.of_nat (length above)) (Z.of_nat (length below)))
    (above ++ below) out
  = Ret (out +:+ rows_text (Z.of_nat (length above)) below).
Proof.
  revert above out. induction below as [|line below IH]; intros above out.
  - simpl. by rewrite string_app_nil_r.
  - rewrite seqZ_cons by (simpl; lia). rewrite show_rows_cons.
    assert ((above ++ line :: below) !! length above = Some line) as Hline
      by (by rewrite lookup_app_r, Nat.sub_diag by done).
    destruct (getitem_in_range (above ++ line :: below)
                (Z.of_nat (length above))) as (line' & Hl' & ->).
    { unfold len. rewrite length_app. simpl. lia. }
    rewrite Nat2Z.id, Hline in Hl'. injection Hl' as <-.
    unfold mbind at 1, result_bind at 1.
    pose proof (show_cells_run (above ++ line :: below) (length above)
                  [] line (out +:+ (pretty (Z.of_nat (length above)) +:+ " "))
                  Hline) as Hcells.
    change (Z.of_nat (length (@nil cell))) with 0 in Hcells.
    unfold len. rewrite Hcells.
    unfold mbind at 1, result_bind at 1.
    replace (Z.succ (Z.of_nat (length above)))
      with (Z.of_nat (length (above ++ [line])))
      by (rewrite length_app; simpl; lia).
    replace (Z.pred (Z.of_nat (length (line :: below))))
      with (Z.of_nat (length below)) by (simpl length; lia).
    replace (above ++ line :: below) with ((above ++ [line]) ++ below)
      by (by rewrite <- app_assoc).
    rewrite IH. f_equal. rewrite rows_text_cons.
    rewrite (cells_then_app line (nl +:+ _)).
    replace (Z.of_nat (length above) + 1)
      with (Z.of_nat (length (above ++ [line])))
      by (rewrite length_app; simpl; lia).
    by rewrite !string_app_assoc.
Qed.

(** The text returned: the heading line and then the rows. *)
Lemma create_detailed_board_representation_run board :
  _create_detailed_board_representation board =
    Ret (("  0 1 2 3 4 5 6 7" +:+ nl) +:+ rows_text 0 board).
Proof.
  unfold _create_detailed_board_representation, len.
  apply (show_rows_run [] board).
Qed.

Lemma cells_then_inj line1 line2 rest1 rest2 :
  cells_then line1 (nl +:+ rest1) = cells_then line2 (nl +:+ rest2) →
  line1 = line2 ∧ rest1 = rest2.
Proof.
  revert line2. induction line1 as [|x line1 IH]; intros [|y line2] Heq.
  - simpl in Heq. by injection Heq.
  - by destruct y as [[|]|].
  - by destruct x as [[|]|].
  - destruct x as [[|]|], y as [[|]|]; simpl in Heq; try done;
      injection Heq as Heq; destruct (IH _ Heq) as [-> ->]; done.
Qed.

Lemma rows_text_inj i board1 board2 :
  rows_text i board1 = rows_text i board2 → board1 = board2.
Proof.
  revert i board2.
  induction board1 as [|line1 board1 IH]; intros i [|line2 board2] Heq.
  - done.
  - simpl in Heq. by destruct (pretty i).
  - simpl in Heq. by destruct (pretty i).
  - simpl in Heq. apply String.app_inj in Heq. simpl in Heq.
    injection Heq as Heq. apply cells_then_inj in Heq as [-> Heq].
    by rewrite (IH _ _ Heq).
Qed.

(** X10. The text of a board is always produced (no subscript of the
    two loops is out of range, whatever the lengths of the rows), and it
    determines the board: two boards with the same text are the same
    board. *)
Theorem create_detailed_board_representation_inj board1 board2 :
  ∃ text1 text2,
    _create_detailed_board_representation board1 = Ret text1 ∧
    _create_detailed_board_representation board2 = Ret text2 ∧
    (text1 = text2 → board1 = board2).
Proof.
  eexists _, _. rewrite !create_detailed_board_representation_run.
  split; [done|]. split; [done|].
  intros Heq%String.app_inj. by apply rows_text_inj in Heq.
Qed.

(** ** The position report *)

(** X11. On a rectangular board the report is always produced, and the
    two players' reports mirror each other: with the counts of threes and
    twos the counter returns for X and for O, the report for X to move is
    the text for (X's counts, O's counts) and the report for O to move is
    the text for (O's counts, X's counts). *)
Theorem analyze_position_mirror game_state game_state' board :
  rectangular board →
  current_player game_state = X → current_player game_state' = O →
  ∃ x3 x2 o3 o2,
    _count_sequences board X 3 = Ret x3 ∧ _count_sequences board X 2 = Ret x2 ∧
    _count_sequences board O 3 = Ret o3 ∧ _count_sequences board O 2 = Ret o2 ∧
    _analyze_position game_state board = Ret (report x3 x2 o3 o2) ∧
    _analyze_position game_state' board = Ret (report o3 o2 x3 x2).
Proof.
  intros Hrect HX HO. unfold _analyze_position. rewrite HX, HO. simpl.
  rewrite !count_sequences_run by done. eexists _, _, _, _.
  by repeat split.
Qed.

Lemma analyze_position_mirror_witness :
  ∃ x3 x2 o3 o2,
    _count_sequences four_in_row X 3 = Ret x3 ∧
    _count_sequences four_in_row X 2 = Ret x2 ∧
    _count_sequences four_in_row O 3 = Ret o3 ∧
    _count_sequences four_in_row O 2 = Ret o2 ∧
    _analyze_position x_to_move_four four_in_row = Ret (report x3 x2 o3 o2) ∧
    _analyze_position o_to_move_four four_in_row = Ret (report o3 o2 x3 x2).
Proof.
  apply analyze_position_mirror.
  - apply (bool_decide_unpack _). vm_compute. exact I.
  - reflexivity.
  - reflexivity.
Defined.

(** ** The scorer after a stone is placed *)







Lemma create_detailed_board_representation_inj_witness :
  ∃ text1 text2,
    _create_detailed_board_representation four_in_row = Ret text1 ∧
    _create_detailed_board_representation centre_taken = Ret text2 ∧
    (text1 = text2 → four_in_row = centre_taken).
Proof. apply create_detailed_board_representation_inj. Defined.
